(** * Tiling object detector and image classifier

    A shallow embedding of the two command-line programs of the repository
    (the chip-based detector and the single-image classifier) together with
    the properties their specification states about them.

    Go's [int] is the 64-bit two's-complement integer, [float32] is IEEE-754
    binary32 (through the Standard Library's [SpecFloat]), strings are byte
    strings, the detector's label table is a finite map, and the programs'
    interaction with files, the inference engine and the standard output is
    a trace of events ending in an exit status. *)

From Stdlib Require Import ZArith Lia List Bool Ascii String SpecFloat.
From stdpp Require Import gmap strings list pretty.

Local Open Scope Z_scope.

(** ** Run-time panics and partial operations *)

Inductive panic : Set :=
| IndexOutOfRange
| DivideByZero
| NegativeLen.

Inductive outcome (A : Type) : Type :=
| Ok (a : A)
| Panicked (p : panic).

Arguments Ok {A} a.
Arguments Panicked {A} p.

#[global] Instance outcome_ret : MRet outcome := fun A a => Ok a.

#[global] Instance outcome_bind : MBind outcome := fun A B k o =>
  match o with
  | Ok a => k a
  | Panicked p => Panicked p
  end.

(** [l[i]] on a slice: a panic outside the bounds. *)
Definition index {A : Type} (l : list A) (i : nat) : outcome A :=
  match l !! i with
  | Some a => Ok a
  | None => Panicked IndexOutOfRange
  end.

(** ** Go's [int] *)

Module GoInt.

Definition min_int : Z := - 2 ^ 63.
Definition max_int : Z := 2 ^ 63 - 1.

Definition in_range (z : Z) : Prop := min_int <= z <= max_int.

Definition in_rangeb (z : Z) : bool := (min_int <=? z) && (z <=? max_int).

(** Two's-complement wrap-around of a mathematical result. *)
Definition wrap (z : Z) : Z := (z + 2 ^ 63) mod 2 ^ 64 - 2 ^ 63.

Definition add (a b : Z) : Z := wrap (a + b).
Definition sub (a b : Z) : Z := wrap (a - b).
Definition mul (a b : Z) : Z := wrap (a * b).

(** [a / b] and [a % b] truncate toward zero and panic on a zero divisor. *)
Definition quo (a b : Z) : outcome Z :=
  if b =? 0 then Panicked DivideByZero else Ok (wrap (Z.quot a b)).

Definition rem (a b : Z) : outcome Z :=
  if b =? 0 then Panicked DivideByZero else Ok (Z.rem a b).

End GoInt.

(** ** Go's [float32] *)

Module F32.

Definition float32 : Set := spec_float.

Definition prec : Z := 24.
Definition emax : Z := 128.

Definition zero : float32 := S754_zero false.

(** An integer constant converted to [float32] (round to nearest even). *)
Definition of_int (z : Z) : float32 := binary_normalize prec emax z 0 false.

Definition mul : float32 -> float32 -> float32 := SFmul prec emax.
Definition div : float32 -> float32 -> float32 := SFdiv prec emax.

(** [a > b], false as soon as one side is a NaN. *)
Definition gtb (a b : float32) : bool := SFltb b a.
Definition leb (a b : float32) : bool := SFleb a b.
Definition ltb (a b : float32) : bool := SFltb a b.

Definition is_nan (a : float32) : bool :=
  match a with
  | S754_nan => true
  | _ => false
  end.

(** The integer part of a finite value, fraction discarded. *)
Definition trunc (f : float32) : option Z :=
  match f with
  | S754_zero _ => Some 0
  | S754_finite s m e =>
      Some (cond_Zopp s (if 0 <=? e then Z.pos m * 2 ^ e else Z.pos m / 2 ^ (- e)))
  | S754_infinity _ | S754_nan => None
  end.

(** The conversion [int(f)]: truncation toward zero.  When the value is
    not representable (a NaN, an infinity, a magnitude beyond 64 bits) the
    conversion succeeds with an implementation-dependent result, given
    here by [unrep]. *)
Definition to_int (unrep : float32 -> Z) (f : float32) : Z :=
  match trunc f with
  | Some z => if GoInt.in_rangeb z then z else GoInt.wrap (unrep f)
  | None => GoInt.wrap (unrep f)
  end.

(** The nearest integer to a finite value, halves away from zero. *)
Definition nearest (f : float32) : option Z :=
  match f with
  | S754_zero _ => Some 0
  | S754_finite s m e =>
      Some (cond_Zopp s
              (if 0 <=? e then Z.pos m * 2 ^ e
               else (2 * Z.pos m + 2 ^ (- e)) / 2 ^ (- e + 1)))
  | S754_infinity _ | S754_nan => None
  end.

End F32.

Abbreviation float32 := F32.float32.

(** ** Geometry of Go's [image] package *)

Module Image.

Record Point : Set := { X : Z; Y : Z }.

Record Rectangle : Set := { Min : Point; Max : Point }.

(** [image.ZR], the zero rectangle. *)
Definition ZR : Rectangle :=
  {| Min := {| X := 0; Y := 0 |}; Max := {| X := 0; Y := 0 |} |}.

(** [image.Rect]: the corners are put in order. *)
Definition Rect (x0 y0 x1 y1 : Z) : Rectangle :=
  let '(x0, x1) := if x1 <? x0 then (x1, x0) else (x0, x1) in
  let '(y0, y1) := if y1 <? y0 then (y1, y0) else (y0, y1) in
  {| Min := {| X := x0; Y := y0 |}; Max := {| X := x1; Y := y1 |} |}.

Definition Dx (r : Rectangle) : Z := GoInt.sub (X (Max r)) (X (Min r)).
Definition Dy (r : Rectangle) : Z := GoInt.sub (Y (Max r)) (Y (Min r)).

Definition Empty (r : Rectangle) : bool :=
  (X (Max r) <=? X (Min r)) || (Y (Max r) <=? Y (Min r)).

Definition Intersect (r s : Rectangle) : Rectangle :=
  let minx := if X (Min r) <? X (Min s) then X (Min s) else X (Min r) in
  let miny := if Y (Min r) <? Y (Min s) then Y (Min s) else Y (Min r) in
  let maxx := if X (Max s) <? X (Max r) then X (Max s) else X (Max r) in
  let maxy := if Y (Max s) <? Y (Max r) then Y (Max s) else Y (Max r) in
  let r' := {| Min := {| X := minx; Y := miny |};
               Max := {| X := maxx; Y := maxy |} |} in
  if Empty r' then ZR else r'.

(** The bounds the decoders give an image of width [Wi] and height [Hi]:
    [image.Rect(0, 0, Wi, Hi)]. *)
Definition decoded (Wi Hi : Z) : Rectangle := Rect 0 0 Wi Hi.

(** [p.In(r)]: the pixel [p] lies in [r]. *)
Definition In (p : Point) (r : Rectangle) : bool :=
  (X (Min r) <=? X p) && (X p <? X (Max r)) &&
  (Y (Min r) <=? Y p) && (Y p <? Y (Max r)).

Definition Overlaps (r s : Rectangle) : bool :=
  negb (Empty r) && negb (Empty s) &&
  (X (Min r) <? X (Max s)) && (X (Min s) <? X (Max r)) &&
  (Y (Min r) <? Y (Max s)) && (Y (Min s) <? Y (Max r)).

(** Bounds of [im.SubImage(r)] for an image of bounds [b] (the concrete
    image types the JPEG decoder returns all crop this way). *)
Definition SubImage (b r : Rectangle) : Rectangle :=
  let r' := Intersect r b in
  if Empty r' then ZR else r'.

End Image.

(** ** [strings.Split], [strconv.Atoi] and [bufio.Scanner] *)

Module Strings.

(** [strings.Split(s, sep)] for a one-byte separator: every piece between
    separators, so one piece more than there are separators. *)
Fixpoint Split (s : string) (sep : ascii) : list string :=
  match s with
  | EmptyString => [EmptyString]
  | String c s' =>
      if Ascii.eqb c sep then EmptyString :: Split s' sep
      else match Split s' sep with
           | piece :: pieces => String c piece :: pieces
           | [] => [String c EmptyString]
           end
  end.

(** [strings.ContainsRune(s, c)] for a one-byte [c]. *)
Fixpoint Contains (s : string) (c : ascii) : bool :=
  match s with
  | EmptyString => false
  | String c' s' => Ascii.eqb c' c || Contains s' c
  end.

End Strings.

Module Strconv.

Inductive numError : Set := ErrSyntax | ErrRange.

Definition maxUint64 : Z := 2 ^ 64 - 1.

Definition digit (c : ascii) : option Z :=
  let n := Z.of_N (N_of_ascii c) in
  if (48 <=? n) && (n <=? 57) then Some (n - 48) else None.

(** The digit loop of [ParseUint(s, 10, 64)], [n] being the value read so
    far: the first byte that is no digit is a syntax error, the first
    digit that overflows a range error. *)
Fixpoint parseDigits (s : string) (n : Z) : Z * option numError :=
  match s with
  | EmptyString => (n, None)
  | String c s' =>
      match digit c with
      | None => (0, Some ErrSyntax)
      | Some d =>
          if maxUint64 <? n * 10 + d then (maxUint64, Some ErrRange)
          else parseDigits s' (n * 10 + d)
      end
  end.

Definition ParseUint (s : string) : Z * option numError :=
  match s with
  | EmptyString => (0, Some ErrSyntax)
  | _ => parseDigits s 0
  end.

(** [ParseInt(s, 10, 0)] *)
Definition ParseInt (s : string) : Z * option numError :=
  match s with
  | EmptyString => (0, Some ErrSyntax)
  | String c s' =>
      let neg := Ascii.eqb c "-" in
      let body := if Ascii.eqb c "+" || neg then s' else s in
      match ParseUint body with
      | (_, Some ErrSyntax) => (0, Some ErrSyntax)
      | (un, _) =>
          if negb neg && (2 ^ 63 <=? un) then (2 ^ 63 - 1, Some ErrRange)
          else if neg && (2 ^ 63 <? un) then (- 2 ^ 63, Some ErrRange)
          else (if neg then - un else un, None)
      end
  end.

(** [Atoi(s)]: the value and the error of [ParseInt(s, 10, 0)]. *)
Definition Atoi (s : string) : Z * option numError := ParseInt s.

End Strconv.

Module Bufio.

Definition MaxScanTokenSize : Z := 64 * 1024.

Definition strlen (s : string) : Z := Z.of_nat (String.length s).

(** [dropCR]: one trailing carriage return is removed. *)
Fixpoint dropCR (s : string) : string :=
  match s with
  | EmptyString => EmptyString
  | String c EmptyString => if Ascii.eqb c "013" then EmptyString else s
  | String c s' => String c (dropCR s')
  end.

(** The tokens a [Scanner] with the [ScanLines] split function delivers,
    given the pieces between the newlines.  The last piece is the
    unterminated end of the input and is a line only when it is not
    empty.  A line that does not fit the scanner's buffer stops the scan
    with an error ([true] in the second component). *)
Fixpoint scanPieces (pieces : list string) : list string * bool :=
  match pieces with
  | [] => ([], false)
  | piece :: rest =>
      match rest, piece with
      | [], EmptyString => ([], false)
      | _, _ =>
          if MaxScanTokenSize <=? strlen piece then ([], true)
          else let '(tokens, err) := scanPieces rest in
               (dropCR piece :: tokens, err)
      end
  end.

Definition ScanLines (content : string) : list string * bool :=
  scanPieces (Strings.Split content "010").

End Bufio.

(** ** Programs: a trace of events and a result or an exit status *)

(** An argument handed to a formatted print. *)
Inductive value : Set :=
| VInt (z : Z)
| VFloat32 (f : float32)
| VString (s : string).

(** File names: [filepath.Join] is kept symbolic. *)
Inductive path : Set :=
| Named (name : string)
| Joined (dir file : string).

Inductive event : Set :=
| Usage                                     (* flag.Usage() *)
| ReadFile (p : path)                       (* ioutil.ReadFile *)
| ImportGraph                               (* graph.Import *)
| NewSession                                (* tf.NewSession *)
| OpenFile (p : path)                       (* os.Open *)
| DecodeJpeg                                (* jpeg.Decode *)
| WritePng (p : path) (r : Image.Rectangle) (* os.Create, png.Encode, Close *)
| MakeTensor (p : path)                     (* makeTensorFromImage *)
| SessionRun                                (* session.Run on the model *)
| Printf (format : string) (args : list value)  (* fmt.Printf *)
| LogPrintf                                 (* log.Printf *)
| LogFatal                                  (* log.Fatal, log.Fatalf *)
| Panic (p : panic).

Inductive result (A : Type) : Type :=
| Done (a : A)
| Exited (status : Z).

Arguments Done {A} a.
Arguments Exited {A} status.

Record Prog (A : Type) : Type := MkProg { trace : list event; res : result A }.

Arguments MkProg {A} trace res.
Arguments trace {A} p.
Arguments res {A} p.

#[global] Instance Prog_ret : MRet Prog := fun A a => MkProg [] (Done a).

#[global] Instance Prog_bind : MBind Prog := fun A B k m =>
  match res m with
  | Done a => MkProg (trace m ++ trace (k a)) (res (k a))
  | Exited c => MkProg (trace m) (Exited c)
  end.

Definition emit (e : event) : Prog unit := MkProg [e] (Done tt).

(** A panic nobody recovers ends the process with status 2. *)
Definition lift {A : Type} (o : outcome A) : Prog A :=
  match o with
  | Ok a => MkProg [] (Done a)
  | Panicked p => MkProg [Panic p] (Exited 2)
  end.

(** A call that reports an error to a caller who answers it with
    [log.Fatal]: the message is logged and the process exits with status 1. *)
Definition orFatal {A : Type} (e : event) (r : option A) : Prog A :=
  match r with
  | Some a => MkProg [e] (Done a)
  | None => MkProg [e; LogFatal] (Exited 1)
  end.

(** The exit status of a whole program. *)
Definition status (p : Prog unit) : Z :=
  match res p with
  | Done _ => 0
  | Exited c => c
  end.

Definition isPrintf (e : event) : bool :=
  match e with
  | Printf _ _ => true
  | _ => false
  end.

Module Fmt.

(** The text of one argument under the verb [%v]: integers in decimal,
    strings as they are, a [float32] as [fmtFloat] gives it. *)
Definition verbV (fmtFloat : float32 -> string) (v : value) : string :=
  match v with
  | VInt z => pretty z
  | VFloat32 f => fmtFloat f
  | VString s => s
  end.

(** [fmt.Sprintf] on a format made of plain text and [%v] verbs. *)
Fixpoint Sprintf (fmtFloat : float32 -> string) (format : string)
    (args : list value) : string :=
  match format with
  | EmptyString => EmptyString
  | String "%" (String "v" rest) =>
      match args with
      | a :: args' => verbV fmtFloat a +:+ Sprintf fmtFloat rest args'
      | [] => "%!v(MISSING)" +:+ Sprintf fmtFloat rest []
      end
  | String c rest => String c (Sprintf fmtFloat rest args)
  end.

End Fmt.

(** [for ... range l], the loop body threading the state [s]. *)
Fixpoint forRange {A St : Type} (body : nat -> A -> St -> Prog St)
    (i : nat) (l : list A) (s : St) : Prog St :=
  match l with
  | [] => mret s
  | a :: l' => s' ← body i a s; forRange body (S i) l' s'
  end.

(** The same loop for a body that can only panic. *)
Fixpoint foldRange {A St : Type} (body : nat -> A -> St -> outcome St)
    (i : nat) (l : list A) (s : St) : outcome St :=
  match l with
  | [] => mret s
  | a :: l' => s' ← body i a s; foldRange body (S i) l' s'
  end.

(** [make([]T, n)]: [n] zero values, a panic for a negative length. *)
Definition make {A : Type} (zero : A) (n : Z) : outcome (list A) :=
  if n <? 0 then Panicked NegativeLen else Ok (replicate (Z.to_nat n) zero).

(** [l[i] = a] *)
Definition store {A : Type} (l : list A) (i : Z) (a : A) : outcome (list A) :=
  if (0 <=? i) && (i <? Z.of_nat (length l)) then Ok (<[Z.to_nat i := a]> l)
  else Panicked IndexOutOfRange.

(** What the programs ask of the file system and of the inference engine;
    [None] and [false] stand for a reported error.  [sessionRun] gives the
    first batch entry of the boxes, the scores and the classes the model
    answers with. *)
Record World (Tensor : Type) : Type := {
  readFile : path -> option string;
  graphImport : string -> bool;
  newSession : bool;
  jpegDecode : string -> option Image.Rectangle;
  makeTensorFromImage : path -> option Tensor;
  sessionRun : Tensor -> option (list (list float32) * list float32 * list float32)
}.

Arguments readFile {Tensor} w p.
Arguments graphImport {Tensor} w model.
Arguments newSession {Tensor} w.
Arguments jpegDecode {Tensor} w bytes.
Arguments makeTensorFromImage {Tensor} w p.
Arguments sessionRun {Tensor} w t.

(** [modelFiles], shared by both programs. *)
Definition modelFiles (dir name : string) : path * path :=
  (Joined dir (name +:+ ".pb"), Joined dir "labels.txt").

(** ** The detector (the chip-based program) *)

Module Detector.

Definition H : Z := 300.
Definition W : Z := 300.

(** An image value is represented by its bounds, [None] being the nil
    interface value. *)
Record Chip : Set := { X : Z; Y : Z; Im : option Image.Rectangle }.

(** [ChipRef] is the field [Chip], a pointer to the chip being processed
    ([None] for nil). *)
Record Detect : Set := {
  Bounds : Image.Rectangle;
  Class : Z;
  ChipRef : option Chip;
  Description : string;
  Confidence : float32
}.

Definition zeroChip : Chip := {| X := 0; Y := 0; Im := None |}.

Definition zeroDetect : Detect :=
  {| Bounds := Image.ZR; Class := 0; ChipRef := None;
     Description := EmptyString; Confidence := F32.zero |}.

Definition chipPath (i : Z) : path :=
  Named ("/tmp/chip-" +:+ pretty i +:+ ".png").

Section Platform.

(** The platform's result for an unrepresentable [int(f)]. *)
Variable unrep : float32 -> Z.

Definition transformBox (chipX chipY : Z) (box : list float32)
    : outcome Image.Rectangle :=
  b0 ← index box 0;
  let mx := GoInt.add (F32.to_int unrep (F32.mul b0 (F32.of_int W)))
                      (GoInt.mul chipX W) in
  b2 ← index box 2;
  let Mx := GoInt.add (F32.to_int unrep (F32.mul b2 (F32.of_int W)))
                      (GoInt.mul chipX W) in
  b1 ← index box 1;
  let my := GoInt.add (F32.to_int unrep (F32.mul b1 (F32.of_int H)))
                      (GoInt.mul chipY H) in
  b3 ← index box 3;
  let My := GoInt.add (F32.to_int unrep (F32.mul b3 (F32.of_int H)))
                      (GoInt.mul chipY H) in
  mret {| Image.Min := {| Image.X := mx; Image.Y := my |};
          Image.Max := {| Image.X := Mx; Image.Y := My |} |}.

(** The body of the tiling loop up to the crop: chip [i] of a grid
    [wn] chips wide. *)
Definition chipAt (bounds : Image.Rectangle) (wn i : Z) : outcome Chip :=
  x ← GoInt.rem i wn;
  y ← GoInt.quo i wn;
  let w := GoInt.mul x W in
  let h := GoInt.mul y H in
  let chip := Image.SubImage bounds
                (Image.Rect w h (GoInt.add w W) (GoInt.add h H)) in
  mret {| X := x; Y := y; Im := Some chip |}.

(** The tiler: lines 86 to 109 of [main]. *)
Definition tile (bounds : Image.Rectangle) : Prog (list Chip) :=
  wn ← lift (GoInt.quo (Image.Dx bounds) W);
  hn ← lift (GoInt.quo (Image.Dy bounds) H);
  chips ← lift (make zeroChip (GoInt.mul wn hn));
  forRange (fun _ i chips =>
              c ← lift (chipAt bounds wn i);
              _ ← emit (WritePng (chipPath i) (default Image.ZR (Im c)));
              lift (store chips i c))
           0 (seqZ 0 (GoInt.mul wn hn)) chips.

(** The detections of one chip: lines 135 to 146 of [main]. *)
Definition detections (chip : Chip)
    (boxes : list (list float32)) (scores classes : list float32)
    : outcome (list Detect) :=
  foldRange (fun i score detects =>
               class ← index classes i;
               box ← index boxes i;
               bounds ← transformBox (X chip) (Y chip) box;
               mret (detects ++
                     [{| Bounds := bounds;
                         Class := F32.to_int unrep class;
                         ChipRef := Some chip;
                         Description := EmptyString;
                         Confidence := score |}]))
            0%nat scores [zeroDetect].

(** The label table: lines 181 to 186 of [printDetections]. *)
Definition labelRow (line : string) (labels : gmap Z string)
    : outcome (gmap Z string) :=
  let splits := Strings.Split line ":" in
  s0 ← index splits 0;
  let '(id, _) := Strconv.Atoi s0 in
  s1 ← index splits 1;
  mret (<[id := s1]> labels).

Definition labelRows (lines : list string) (labels : gmap Z string)
    : outcome (gmap Z string) :=
  foldRange (fun _ line labels => labelRow line labels) 0%nat lines labels.

Definition parseLabels (content : string) : outcome (gmap Z string) :=
  labelRows (fst (Bufio.ScanLines content)) ∅.

Definition detectLine (d : Detect) : event :=
  Printf "%v %v %v %v %v %v
"
    [VInt (Image.X (Image.Min (Bounds d))); VInt (Image.Y (Image.Min (Bounds d)));
     VInt (Image.X (Image.Max (Bounds d))); VInt (Image.Y (Image.Max (Bounds d)));
     VInt (Class d); VFloat32 (Confidence d)].

Context {Tensor : Type}.
Variable world : World Tensor.

Definition printDetections (detects : list Detect) (labelsFile : path)
    : Prog unit :=
  content ← orFatal (OpenFile labelsFile) (readFile world labelsFile);
  _ ← lift (parseLabels content);
  forRange (fun _ d _ => emit (detectLine d)) 0%nat detects tt.

(** The body of the inference loop: lines 112 to 147 of [main]. *)
Definition inferChip (labelsfile : path) (i : nat) (chip : Chip) : Prog unit :=
  tensor ← orFatal (MakeTensor (chipPath (Z.of_nat i)))
                   (makeTensorFromImage world (chipPath (Z.of_nat i)));
  '(boxes, scores, classes) ← orFatal SessionRun (sessionRun world tensor);
  detects ← lift (detections chip boxes scores classes);
  printDetections detects labelsfile.

(** [main], from the values of the two flags once [flag.Parse] has
    returned. *)
Definition main (modeldir imagefile : string) : Prog unit :=
  if String.eqb modeldir "" || String.eqb imagefile "" then emit Usage
  else
    let '(modelfile, labelsfile) := modelFiles modeldir "multires" in
    model ← orFatal (ReadFile modelfile) (readFile world modelfile);
    _ ← orFatal ImportGraph (if graphImport world model then Some tt else None);
    _ ← orFatal NewSession (if newSession world then Some tt else None);
    file ← orFatal (OpenFile (Named imagefile)) (readFile world (Named imagefile));
    im ← orFatal DecodeJpeg (jpegDecode world file);
    chips ← tile im;
    forRange (fun i chip _ => inferChip labelsfile i chip) 0%nat chips tt.

End Platform.

End Detector.

(** ** The classifier (the single-image program) *)

Module Classifier.

(** The arg-max loop: lines 107 to 112 of [printBestLabel]. *)
Definition bestIndex (probabilities : list float32) : outcome nat :=
  foldRange (fun i p bestIdx =>
               best ← index probabilities bestIdx;
               mret (if F32.gtb p best then i else bestIdx))
            0%nat probabilities 0%nat.

Section Program.

Context {Tensor : Type}.
Variable world : World Tensor.

Definition printBestLabel (probabilities : list float32) (labelsFile : path)
    : Prog unit :=
  bestIdx ← lift (bestIndex probabilities);
  content ← orFatal (OpenFile labelsFile) (readFile world labelsFile);
  let '(labels, err) := Bufio.ScanLines content in
  _ ← (if err then emit LogPrintf else mret tt);
  p ← lift (index probabilities bestIdx);
  label ← lift (index labels bestIdx);
  emit (Printf "BEST MATCH: (%2.0f%% likely) %s
"
          [VFloat32 (F32.mul p (F32.of_int 100)); VString label]).

Definition main (modeldir imagefile : string) : Prog unit :=
  if String.eqb modeldir "" || String.eqb imagefile "" then emit Usage
  else
    let '(modelfile, labelsfile) := modelFiles modeldir "vanilla" in
    model ← orFatal (ReadFile modelfile) (readFile world modelfile);
    _ ← orFatal ImportGraph (if graphImport world model then Some tt else None);
    _ ← orFatal NewSession (if newSession world then Some tt else None);
    tensor ← orFatal (MakeTensor (Named imagefile))
                     (makeTensorFromImage world (Named imagefile));
    '(_, probabilities, _) ← orFatal SessionRun (sessionRun world tensor);
    printBestLabel probabilities labelsfile.

End Program.

End Classifier.

(** ** Reference notions the properties are stated with *)

(** On amd64 the conversion instruction answers an unrepresentable value
    with the smallest integer. *)
Definition amd64_unrep : float32 -> Z := fun _ => GoInt.min_int.

(** A world in which every call succeeds: the image decodes to [Wi] by
    [Hi] pixels, the label file has two rows, and the model reports one
    detection, a box filling the chip. *)
Definition sampleWorld (Wi Hi : Z) : World unit :=
  {| readFile := fun p =>
       match p with
       | Joined _ "labels.txt" => Some "0:person
1:car
"
       | _ => Some EmptyString
       end;
     graphImport := fun _ => true;
     newSession := true;
     jpegDecode := fun _ => Some (Image.decoded Wi Hi);
     makeTensorFromImage := fun _ => Some tt;
     sessionRun := fun _ =>
       Some ([[F32.zero; F32.zero; F32.of_int 1; F32.of_int 1]],
             [F32.div (F32.of_int 7) (F32.of_int 10)],
             [F32.of_int 1]) |}.

Module Spec.

(** The coordinate [t + c * scale] and its parts fit Go's [int]. *)
Definition fits (scale t c : Z) : Prop :=
  GoInt.in_range t /\ GoInt.in_range (c * scale) /\ GoInt.in_range (t + c * scale).

(** Chip [i] of a grid [wn] chips wide, as the specification words it. *)
Definition chip (wn i : Z) : Detector.Chip :=
  {| Detector.X := i mod wn;
     Detector.Y := i / wn;
     Detector.Im :=
       Some {| Image.Min := {| Image.X := (i mod wn) * Detector.W;
                               Image.Y := (i / wn) * Detector.H |};
               Image.Max := {| Image.X := (i mod wn + 1) * Detector.W;
                               Image.Y := (i / wn + 1) * Detector.H |} |} |}.

(** A decimal numeral and its value, from the digits [ds] (most
    significant first). *)
Definition digit_char (d : Z) : ascii := ascii_of_N (Z.to_N (48 + d)).

Fixpoint numeral (ds : list Z) : string :=
  match ds with
  | [] => EmptyString
  | d :: ds' => String (digit_char d) (numeral ds')
  end.

Definition decimal_from (n : Z) (ds : list Z) : Z :=
  foldl (fun n d => n * 10 + d) n ds.

Definition decimal (ds : list Z) : Z := decimal_from 0 ds.

(** A row cut at its first colon: the text before it and all the text
    after it. *)
Fixpoint cut (line : string) : option (string * string) :=
  match line with
  | EmptyString => None
  | String c rest =>
      if Ascii.eqb c ":" then Some (EmptyString, rest)
      else match cut rest with
           | Some (before, after) => Some (String c before, after)
           | None => None
           end
  end.

(** The label table as the specification words it: each row is cut at its
    first colon. *)
Definition labels_first_colon (lines : list string) : gmap Z string :=
  foldl (fun labels line =>
           match cut line with
           | Some (idtext, description) =>
               <[fst (Strconv.Atoi idtext) := description]> labels
           | None => labels
           end) ∅ lines.

(** The label table when malformed rows are ignored, as the specification
    words it: a row counts when it has a colon and its id parses. *)
Definition labels_skipping (lines : list string) : gmap Z string :=
  foldl (fun labels line =>
           match Strings.Split line ":" with
           | idtext :: description :: _ =>
               match Strconv.Atoi idtext with
               | (id, None) => <[id := description]> labels
               | (_, Some _) => labels
               end
           | _ => labels
           end) ∅ lines.

(** The state of the arg-max loop after the first [i] elements: [b] holds
    a value no smaller than any of them and strictly greater than all
    before [b]. *)
Definition best_so_far (probabilities : list float32) (i b : nat) : Prop :=
  exists pb,
    probabilities !! b = Some pb /\
    (forall (j : nat) q, (j < i)%nat -> probabilities !! j = Some q ->
                         F32.leb q pb = true) /\
    (forall (j : nat) q, (j < b)%nat -> probabilities !! j = Some q ->
                         F32.ltb q pb = true).

(** The remapping as the specification words it, [round] being rounding
    to the nearest integer. *)
Definition transformBox_round (chipX chipY : Z) (b0 b1 b2 b3 : float32)
    : option Image.Rectangle :=
  r0 ← F32.nearest (F32.mul b0 (F32.of_int Detector.W));
  r2 ← F32.nearest (F32.mul b2 (F32.of_int Detector.W));
  r1 ← F32.nearest (F32.mul b1 (F32.of_int Detector.H));
  r3 ← F32.nearest (F32.mul b3 (F32.of_int Detector.H));
  Some {| Image.Min := {| Image.X := r0 + chipX * Detector.W;
                          Image.Y := r1 + chipY * Detector.H |};
          Image.Max := {| Image.X := r2 + chipX * Detector.W;
                          Image.Y := r3 + chipY * Detector.H |} |}.

End Spec.

(** ** What a row of the label file is entered as *)

Module Row.

(** The id a row is entered under: what [Atoi] makes of the text before
    the first colon. *)
Definition id (line : string) : Z :=
  fst (Strconv.Atoi (hd EmptyString (Strings.Split line ":"))).

(** The description of a row: its second piece. *)
Definition description (line : string) : string :=
  nth 1 (Strings.Split line ":") EmptyString.

Definition has_colon (line : string) : bool := Strings.Contains line ":".

End Row.

(** ** Normalized box values *)

Module Box.

(** A value of [float32] proper (a canonical mantissa and exponent) that
    lies between 0 and 1. *)
Definition normalized (b : float32) : Prop :=
  valid_binary F32.prec F32.emax b = true /\
  F32.leb F32.zero b = true /\
  F32.leb b (F32.of_int 1) = true.

End Box.

(** A world like [sampleWorld] in which no tensor can be made from the file
    of chip 1. *)
Definition flakyWorld (Wi Hi : Z) : World unit :=
  {| readFile := readFile (sampleWorld Wi Hi);
     graphImport := graphImport (sampleWorld Wi Hi);
     newSession := newSession (sampleWorld Wi Hi);
     jpegDecode := jpegDecode (sampleWorld Wi Hi);
     makeTensorFromImage := fun p =>
       match p with
       | Named "/tmp/chip-1.png" => None
       | _ => Some tt
       end;
     sessionRun := sessionRun (sampleWorld Wi Hi) |}.

(** * Properties *)

(** ** Machine integers *)

Ltac to_arith H :=
  repeat (rewrite ?andb_true_iff, ?negb_true_iff, ?orb_false_iff,
            ?Z.ltb_lt, ?Z.leb_le, ?Z.leb_gt, ?Z.ltb_ge in H).

Lemma wrap_id z : GoInt.in_range z -> GoInt.wrap z = z.
Proof.
  unfold GoInt.in_range, GoInt.wrap, GoInt.min_int, GoInt.max_int. intros Hz.
  rewrite Z.mod_small; lia.
Qed.

Lemma wrap_in_range z : GoInt.in_range (GoInt.wrap z).
Proof.
  unfold GoInt.in_range, GoInt.wrap, GoInt.min_int, GoInt.max_int.
  pose proof (Z.mod_pos_bound (z + 2 ^ 63) (2 ^ 64) ltac:(lia)). lia.
Qed.

Lemma wrap_congr a b : (a - b) mod 2 ^ 64 = 0 -> GoInt.wrap a = GoInt.wrap b.
Proof.
  intros Hab. unfold GoInt.wrap. f_equal.
  apply Z.mod_divide in Hab; [|lia]. destruct Hab as [k Hk].
  replace (a + 2 ^ 63) with (b + 2 ^ 63 + k * 2 ^ 64) by lia.
  apply Z_mod_plus_full.
Qed.

Lemma wrap_wrap_add_l a b : GoInt.wrap (GoInt.wrap a + b) = GoInt.wrap (a + b).
Proof.
  apply wrap_congr. unfold GoInt.wrap.
  replace ((a + 2 ^ 63) mod 2 ^ 64 - 2 ^ 63 + b - (a + b))
    with ((a + 2 ^ 63) mod 2 ^ 64 - (a + 2 ^ 63)) by lia.
  rewrite (Z.mod_eq (a + 2 ^ 63) (2 ^ 64)) by lia.
  replace (a + 2 ^ 63 - 2 ^ 64 * ((a + 2 ^ 63) / 2 ^ 64) - (a + 2 ^ 63))
    with ((- ((a + 2 ^ 63) / 2 ^ 64)) * 2 ^ 64) by lia.
  apply Z_mod_mult.
Qed.

Lemma in_rangeb_spec z : GoInt.in_rangeb z = true <-> GoInt.in_range z.
Proof. unfold GoInt.in_rangeb, GoInt.in_range. rewrite andb_true_iff. lia. Qed.

Lemma to_int_trunc unrep f t :
  F32.trunc f = Some t -> GoInt.in_range t -> F32.to_int unrep f = t.
Proof.
  intros Ht Hr. unfold F32.to_int. rewrite Ht.
  apply in_rangeb_spec in Hr. now rewrite Hr.
Qed.

Lemma wrap_wrap_add_r a b : GoInt.wrap (a + GoInt.wrap b) = GoInt.wrap (a + b).
Proof. rewrite Z.add_comm, wrap_wrap_add_l. f_equal. lia. Qed.

(** ** The coordinate remapper *)

Section Remapper.

Variable unrep : float32 -> Z.

Local Abbreviation transformBox := (Detector.transformBox unrep).

Lemma transformBox_four chipX chipY b0 b1 b2 b3 rest :
  transformBox chipX chipY (b0 :: b1 :: b2 :: b3 :: rest) =
  Ok {| Image.Min :=
          {| Image.X := GoInt.add (F32.to_int unrep (F32.mul b0 (F32.of_int 300)))
                                  (GoInt.mul chipX 300);
             Image.Y := GoInt.add (F32.to_int unrep (F32.mul b1 (F32.of_int 300)))
                                  (GoInt.mul chipY 300) |};
        Image.Max :=
          {| Image.X := GoInt.add (F32.to_int unrep (F32.mul b2 (F32.of_int 300)))
                                  (GoInt.mul chipX 300);
             Image.Y := GoInt.add (F32.to_int unrep (F32.mul b3 (F32.of_int 300)))
                                  (GoInt.mul chipY 300) |} |}.
Proof. reflexivity. Qed.

Lemma transformBox_short chipX chipY (box : list float32) :
  (length box < 4)%nat -> transformBox chipX chipY box = Panicked IndexOutOfRange.
Proof.
  destruct box as [|b0 [|b1 [|b2 [|b3 rest]]]]; simpl; intros Hlen;
    try reflexivity; lia.
Qed.

Lemma transformBox_Ok_inv chipX chipY box r :
  transformBox chipX chipY box = Ok r ->
  exists b0 b1 b2 b3 rest, box = b0 :: b1 :: b2 :: b3 :: rest.
Proof.
  destruct box as [|b0 [|b1 [|b2 [|b3 rest]]]]; try discriminate.
  intros _. by exists b0, b1, b2, b3, rest.
Qed.

Lemma fits_coord scale b c t :
  F32.trunc (F32.mul b (F32.of_int scale)) = Some t -> Spec.fits scale t c ->
  GoInt.add (F32.to_int unrep (F32.mul b (F32.of_int scale))) (GoInt.mul c scale)
  = t + c * scale.
Proof.
  intros Ht (H1 & H2 & H3).
  rewrite (to_int_trunc unrep _ t Ht H1).
  unfold GoInt.add, GoInt.mul. rewrite (wrap_id (c * scale)) by done.
  by apply wrap_id.
Qed.

Lemma shift_coord a c v :
  GoInt.add a (GoInt.mul c 300) = v -> GoInt.in_range (v + 300) ->
  GoInt.add a (GoInt.mul (c + 1) 300) = v + 300.
Proof.
  unfold GoInt.add, GoInt.mul. intros <- Hr.
  rewrite (wrap_wrap_add_r a (c * 300)) in Hr |- *.
  rewrite (wrap_wrap_add_r a ((c + 1) * 300)).
  replace (a + (c + 1) * 300) with (a + c * 300 + 300) by lia.
  rewrite <- (wrap_wrap_add_l (a + c * 300) 300). by apply wrap_id.
Qed.

(** C3: a box filling its chip, [[0, 0, 1, 1]], on chip [(1, 2)] is mapped
    to that chip's own pixel rectangle, [(300, 600)-(600, 900)]. *)
Theorem remap_full_chip :
  transformBox 1 2 [F32.zero; F32.zero; F32.of_int 1; F32.of_int 1] =
  Ok {| Image.Min := {| Image.X := 300; Image.Y := 600 |};
        Image.Max := {| Image.X := 600; Image.Y := 900 |} |}.
Proof. vm_compute. reflexivity. Qed.

(** C8: with the box fixed, one more chip to the right moves [min_x] and
    [max_x] by exactly [W] and leaves [min_y] and [max_y] alone; one more
    chip down moves [min_y] and [max_y] by exactly [H] and leaves [min_x]
    and [max_x] alone.  The moved coordinates are required to be values
    of Go's [int]. *)
Theorem remap_chip_shift chipX chipY box r :
  transformBox chipX chipY box = Ok r ->
  (GoInt.in_range (Image.X (Image.Min r) + Detector.W) ->
   GoInt.in_range (Image.X (Image.Max r) + Detector.W) ->
   transformBox (chipX + 1) chipY box =
   Ok {| Image.Min := {| Image.X := Image.X (Image.Min r) + Detector.W;
                         Image.Y := Image.Y (Image.Min r) |};
         Image.Max := {| Image.X := Image.X (Image.Max r) + Detector.W;
                         Image.Y := Image.Y (Image.Max r) |} |}) /\
  (GoInt.in_range (Image.Y (Image.Min r) + Detector.H) ->
   GoInt.in_range (Image.Y (Image.Max r) + Detector.H) ->
   transformBox chipX (chipY + 1) box =
   Ok {| Image.Min := {| Image.X := Image.X (Image.Min r);
                         Image.Y := Image.Y (Image.Min r) + Detector.H |};
         Image.Max := {| Image.X := Image.X (Image.Max r);
                         Image.Y := Image.Y (Image.Max r) + Detector.H |} |}).
Proof.
  intros Hr.
  destruct (transformBox_Ok_inv _ _ _ _ Hr) as (b0 & b1 & b2 & b3 & rest & ->).
  rewrite transformBox_four in Hr. injection Hr as <-.
  rewrite !transformBox_four. unfold Detector.W, Detector.H. simpl.
  split; intros Hmin Hmax; do 3 f_equal; by apply shift_coord.
Qed.

(** C2, as amended: the rectangle is
    [min_x = trunc(box[0]*W) + chipX*W], [max_x = trunc(box[2]*W) + chipX*W],
    [min_y = trunc(box[1]*H) + chipY*H], [max_y = trunc(box[3]*H) + chipY*H],
    [trunc] discarding the fraction; nothing is clamped, as on the box
    [[-1/2, 0, 3/2, 2]], whose rectangle leaves the chip on two sides. *)
Theorem remap_formula chipX chipY b0 b1 b2 b3 rest t0 t1 t2 t3 :
  F32.trunc (F32.mul b0 (F32.of_int Detector.W)) = Some t0 ->
  F32.trunc (F32.mul b2 (F32.of_int Detector.W)) = Some t2 ->
  F32.trunc (F32.mul b1 (F32.of_int Detector.H)) = Some t1 ->
  F32.trunc (F32.mul b3 (F32.of_int Detector.H)) = Some t3 ->
  Spec.fits Detector.W t0 chipX -> Spec.fits Detector.W t2 chipX ->
  Spec.fits Detector.H t1 chipY -> Spec.fits Detector.H t3 chipY ->
  transformBox chipX chipY (b0 :: b1 :: b2 :: b3 :: rest) =
  Ok {| Image.Min := {| Image.X := t0 + chipX * Detector.W;
                        Image.Y := t1 + chipY * Detector.H |};
        Image.Max := {| Image.X := t2 + chipX * Detector.W;
                        Image.Y := t3 + chipY * Detector.H |} |} /\
  transformBox 1 2 [F32.div (F32.of_int (-1)) (F32.of_int 2); F32.zero;
                    F32.div (F32.of_int 3) (F32.of_int 2); F32.of_int 2] =
  Ok {| Image.Min := {| Image.X := 150; Image.Y := 600 |};
        Image.Max := {| Image.X := 750; Image.Y := 1200 |} |}.
Proof.
  intros H0 H2 H1 H3 F0 F2 F1 F3. split; [|vm_compute; reflexivity].
  rewrite transformBox_four.
  change 300 with Detector.W at 1 2 5 6. change 300 with Detector.H.
  by rewrite (fits_coord _ _ _ _ H0 F0), (fits_coord _ _ _ _ H1 F1),
    (fits_coord _ _ _ _ H2 F2), (fits_coord _ _ _ _ H3 F3).
Qed.

End Remapper.

(** [F32.trunc] rounds toward zero: the result has the sign of the value
    and the integer part of its magnitude. *)
Lemma trunc_toward_zero s m e t :
  F32.trunc (S754_finite s m e) = Some t ->
  (if s then t <= 0 else 0 <= t) /\
  (if 0 <=? e then Z.abs t = Z.pos m * 2 ^ e
   else Z.abs t * 2 ^ (- e) <= Z.pos m < (Z.abs t + 1) * 2 ^ (- e)).
Proof.
  simpl. intros [= <-]. destruct (Z.leb_spec 0 e) as [He|He].
  - assert (0 < 2 ^ e) by (apply Z.pow_pos_nonneg; lia).
    destruct s; simpl; split; nia.
  - assert (Hp : 0 < 2 ^ (- e)) by (apply Z.pow_pos_nonneg; lia).
    pose proof (Z.div_pos (Z.pos m) (2 ^ (- e)) ltac:(lia) Hp) as Hq.
    pose proof (Z.mul_div_le (Z.pos m) (2 ^ (- e)) Hp) as Hle.
    pose proof (Z.mul_succ_div_gt (Z.pos m) (2 ^ (- e)) Hp) as Hgt.
    destruct s; simpl; split; lia.
Qed.

(** C2, as stated, fails: on the box value [5/512] the product with [W] is
    [2.9296875]; rounding gives [3], the program gives [2]. *)
Lemma remap_round_counterexample :
  Spec.transformBox_round 0 0
    (F32.div (F32.of_int 5) (F32.of_int 512)) F32.zero F32.zero F32.zero =
  Some {| Image.Min := {| Image.X := 3; Image.Y := 0 |};
          Image.Max := {| Image.X := 0; Image.Y := 0 |} |} /\
  Detector.transformBox amd64_unrep 0 0
    [F32.div (F32.of_int 5) (F32.of_int 512); F32.zero; F32.zero; F32.zero] =
  Ok {| Image.Min := {| Image.X := 2; Image.Y := 0 |};
        Image.Max := {| Image.X := 0; Image.Y := 0 |} |}.
Proof. split; vm_compute; reflexivity. Qed.

Lemma in_range_small z : - 2 ^ 62 <= z <= 2 ^ 62 -> GoInt.in_range z.
Proof. unfold GoInt.in_range, GoInt.min_int, GoInt.max_int. lia. Qed.

Lemma remap_formula_witness :
  Detector.transformBox amd64_unrep 3 1
    [F32.div (F32.of_int 5) (F32.of_int 512); F32.zero;
     F32.of_int 1; F32.div (F32.of_int 1) (F32.of_int 2)] =
  Ok {| Image.Min := {| Image.X := 2 + 3 * 300; Image.Y := 0 + 1 * 300 |};
        Image.Max := {| Image.X := 300 + 3 * 300; Image.Y := 150 + 1 * 300 |} |}.
Proof.
  apply (remap_formula amd64_unrep 3 1
           (F32.div (F32.of_int 5) (F32.of_int 512)) F32.zero
           (F32.of_int 1) (F32.div (F32.of_int 1) (F32.of_int 2)) [] 2 0 300 150);
    try reflexivity;
    unfold Spec.fits, Detector.W, Detector.H;
    repeat split; apply in_range_small; simpl; lia.
Defined.

Lemma remap_chip_shift_witness :
  Detector.transformBox amd64_unrep 1 0
    [F32.zero; F32.zero; F32.of_int 1; F32.of_int 1] =
  Ok {| Image.Min := {| Image.X := 300; Image.Y := 0 |};
        Image.Max := {| Image.X := 600; Image.Y := 300 |} |} /\
  Detector.transformBox amd64_unrep 0 1
    [F32.zero; F32.zero; F32.of_int 1; F32.of_int 1] =
  Ok {| Image.Min := {| Image.X := 0; Image.Y := 300 |};
        Image.Max := {| Image.X := 300; Image.Y := 600 |} |}.
Proof.
  destruct (remap_chip_shift amd64_unrep 0 0
              [F32.zero; F32.zero; F32.of_int 1; F32.of_int 1]
              {| Image.Min := {| Image.X := 0; Image.Y := 0 |};
                 Image.Max := {| Image.X := 300; Image.Y := 300 |} |}
              eq_refl) as [HX HY].
  split; [apply HX | apply HY]; apply in_range_small;
    unfold Detector.W, Detector.H; simpl; lia.
Defined.


(** ** Programs *)

Lemma index_Ok {A : Type} (l : list A) (i : nat) (a : A) :
  index l i = Ok a <-> l !! i = Some a.
Proof. unfold index. destruct (l !! i); split; congruence. Qed.

Lemma lift_Ok_bind {A B : Type} (a : A) (k : A -> Prog B) :
  (lift (Ok a) ≫= k) = k a.
Proof. unfold mbind, Prog_bind. simpl. by destruct (k a). Qed.

Lemma lift_Panicked_bind {A B : Type} (p : panic) (k : A -> Prog B) :
  (lift (Panicked p) ≫= k) = MkProg [Panic p] (Exited 2).
Proof. reflexivity. Qed.

Lemma emit_bind {B : Type} (e : event) (k : unit -> Prog B) :
  (emit e ≫= k) = MkProg (e :: trace (k tt)) (res (k tt)).
Proof. reflexivity. Qed.

Lemma orFatal_Some_bind {A B : Type} (e : event) (a : A) (k : A -> Prog B) :
  (orFatal e (Some a) ≫= k) = MkProg (e :: trace (k a)) (res (k a)).
Proof. reflexivity. Qed.

Lemma orFatal_None_bind {A B : Type} (e : event) (k : A -> Prog B) :
  (orFatal e None ≫= k) = MkProg [e; LogFatal] (Exited 1).
Proof. reflexivity. Qed.

Lemma Done_bind {A B : Type} (t : list event) (a : A) (k : A -> Prog B) :
  (MkProg t (Done a) ≫= k) = MkProg (t ++ trace (k a)) (res (k a)).
Proof. reflexivity. Qed.

(** ** The tiler *)

Lemma decoded_bounds Wi Hi :
  0 <= Wi -> 0 <= Hi ->
  Image.decoded Wi Hi =
  {| Image.Min := {| Image.X := 0; Image.Y := 0 |};
     Image.Max := {| Image.X := Wi; Image.Y := Hi |} |}.
Proof.
  intros HW HH. unfold Image.decoded, Image.Rect.
  destruct (Z.ltb_spec Wi 0), (Z.ltb_spec Hi 0); try lia. reflexivity.
Qed.

Lemma Rect_ordered x0 y0 x1 y1 :
  x0 <= x1 -> y0 <= y1 ->
  Image.Rect x0 y0 x1 y1 =
  {| Image.Min := {| Image.X := x0; Image.Y := y0 |};
     Image.Max := {| Image.X := x1; Image.Y := y1 |} |}.
Proof.
  intros Hx Hy. unfold Image.Rect.
  destruct (Z.ltb_spec x1 x0), (Z.ltb_spec y1 y0); try lia. reflexivity.
Qed.

(** Cropping to a non-empty rectangle inside the image gives that rectangle. *)
Lemma SubImage_inside b r :
  Image.X (Image.Min b) <= Image.X (Image.Min r) ->
  Image.Y (Image.Min b) <= Image.Y (Image.Min r) ->
  Image.X (Image.Max r) <= Image.X (Image.Max b) ->
  Image.Y (Image.Max r) <= Image.Y (Image.Max b) ->
  Image.X (Image.Min r) < Image.X (Image.Max r) ->
  Image.Y (Image.Min r) < Image.Y (Image.Max r) ->
  Image.SubImage b r = r.
Proof.
  destruct b as [[bx0 by0] [bx1 by1]], r as [[rx0 ry0] [rx1 ry1]]. simpl.
  intros Hx0 Hy0 Hx1 Hy1 Hx Hy.
  unfold Image.SubImage, Image.Intersect, Image.Empty. simpl.
  rewrite (proj2 (Z.ltb_ge rx0 bx0)), (proj2 (Z.ltb_ge ry0 by0)) by lia.
  rewrite (proj2 (Z.ltb_ge bx1 rx1)), (proj2 (Z.ltb_ge by1 ry1)) by lia.
  simpl.
  rewrite (proj2 (Z.leb_gt rx1 rx0)), (proj2 (Z.leb_gt ry1 ry0)) by lia.
  simpl.
  rewrite (proj2 (Z.leb_gt rx1 rx0)), (proj2 (Z.leb_gt ry1 ry0)) by lia.
  reflexivity.
Qed.

Section Tiler.

Variables Wi Hi : Z.
Hypothesis HWi : 0 <= Wi < 2 ^ 31.
Hypothesis HHi : 0 <= Hi < 2 ^ 31.

Let wn : Z := Wi / Detector.W.
Let hn : Z := Hi / Detector.H.

Lemma grid_bounds :
  0 <= wn < 2 ^ 31 /\ 0 <= hn < 2 ^ 31 /\
  wn * 300 <= Wi < wn * 300 + 300 /\ hn * 300 <= Hi < hn * 300 + 300.
Proof.
  subst wn hn. unfold Detector.W, Detector.H.
  pose proof (Z.div_mod Wi 300 ltac:(lia)).
  pose proof (Z.mod_pos_bound Wi 300 ltac:(lia)).
  pose proof (Z.div_mod Hi 300 ltac:(lia)).
  pose proof (Z.mod_pos_bound Hi 300 ltac:(lia)).
  lia.
Qed.

Lemma grid_quo :
  GoInt.quo (Image.Dx (Image.decoded Wi Hi)) Detector.W = Ok wn /\
  GoInt.quo (Image.Dy (Image.decoded Wi Hi)) Detector.H = Ok hn.
Proof.
  pose proof grid_bounds as (Hwn & Hhn & _).
  rewrite decoded_bounds by lia. unfold Image.Dx, Image.Dy, GoInt.sub, GoInt.quo. simpl.
  rewrite !Z.sub_0_r, (wrap_id Wi), (wrap_id Hi) by (apply in_range_small; lia).
  rewrite !Z.quot_div_nonneg by (unfold Detector.W, Detector.H; lia).
  fold wn hn. rewrite !wrap_id by (apply in_range_small; lia). done.
Qed.

Lemma grid_cell i :
  0 <= i < wn * hn ->
  0 < wn /\ 0 <= i mod wn < wn /\ 0 <= i / wn < hn.
Proof.
  pose proof grid_bounds as (Hwn & Hhn & _). intros Hi'.
  assert (0 < wn) by nia.
  split; [lia|]. split; [apply Z.mod_pos_bound; lia|].
  split; [apply Z.div_pos; lia | apply Z.div_lt_upper_bound; lia].
Qed.

Lemma chipAt_grid i :
  0 <= i < wn * hn ->
  Detector.chipAt (Image.decoded Wi Hi) wn i = Ok (Spec.chip wn i).
Proof.
  intros Hi'. pose proof grid_bounds as (Hwn & Hhn & HW & HH).
  pose proof (grid_cell i Hi') as (Hpos & Hx & Hy).
  unfold Detector.chipAt, GoInt.rem, GoInt.quo.
  destruct (Z.eqb_spec wn 0) as [|_]; [lia|]. simpl.
  rewrite Z.rem_mod_nonneg, Z.quot_div_nonneg by lia.
  rewrite (wrap_id (i / wn)) by (apply in_range_small; lia).
  unfold Spec.chip, GoInt.mul, GoInt.add, Detector.W, Detector.H.
  rewrite (wrap_id (i mod wn * 300)), (wrap_id (i / wn * 300))
    by (apply in_range_small; lia).
  rewrite (wrap_id (i mod wn * 300 + 300)), (wrap_id (i / wn * 300 + 300))
    by (apply in_range_small; lia).
  rewrite Rect_ordered by lia.
  rewrite decoded_bounds by lia.
  rewrite SubImage_inside by (simpl; lia).
  replace ((i mod wn + 1) * 300) with (i mod wn * 300 + 300) by lia.
  replace ((i / wn + 1) * 300) with (i / wn * 300 + 300) by lia.
  reflexivity.
Qed.

Lemma store_in_range {A : Type} (l : list A) (i : Z) (a : A) :
  0 <= i < Z.of_nat (length l) -> store l i a = Ok (<[Z.to_nat i := a]> l).
Proof.
  intros Hi'. unfold store.
  destruct (Z.leb_spec 0 i), (Z.ltb_spec i (Z.of_nat (length l))); try lia.
  reflexivity.
Qed.

(** The tiling loop from chip [a] on: every remaining slot of the slice is
    overwritten with its chip and one file is written per chip. *)
Lemma tile_loop (m : nat) :
  forall (k : nat) (a : Z) (chips : list Detector.Chip),
    0 <= a -> a + Z.of_nat m = wn * hn ->
    length chips = Z.to_nat (wn * hn) ->
    exists chips',
      forRange (fun _ i chips =>
                  c ← lift (Detector.chipAt (Image.decoded Wi Hi) wn i);
                  _ ← emit (WritePng (Detector.chipPath i)
                              (default Image.ZR (Detector.Im c)));
                  lift (store chips i c))
               k (seqZ a (Z.of_nat m)) chips =
      MkProg ((fun i => WritePng (Detector.chipPath i)
                          (default Image.ZR (Detector.Im (Spec.chip wn i))))
                <$> seqZ a (Z.of_nat m))
             (Done chips') /\
      length chips' = length chips /\
      forall j : nat,
        chips' !! j = if bool_decide (a <= Z.of_nat j)
                      then (if bool_decide (Z.of_nat j < wn * hn)
                            then Some (Spec.chip wn (Z.of_nat j)) else None)
                      else chips !! j.
Proof.
  induction m as [|m IH]; intros k a chips Ha Hn Hlen.
  - exists chips. simpl. split; [done|]. split; [done|].
    intros j. repeat case_bool_decide; try done; try lia.
    apply lookup_ge_None. lia.
  - rewrite seqZ_cons by lia.
    replace (Z.pred (Z.of_nat (S m))) with (Z.of_nat m) by lia.
    cbn [forRange fmap list_fmap].
    rewrite chipAt_grid by lia. rewrite lift_Ok_bind, emit_bind.
    rewrite store_in_range by lia. cbn [lift trace res].
    rewrite Done_bind.
    destruct (IH (S k) (Z.succ a) (<[Z.to_nat a := Spec.chip wn a]> chips))
      as (chips' & Hrun & Hlen' & Hlook); [lia|lia|by rewrite length_insert|].
    exists chips'. rewrite Hrun. cbn [trace res app].
    split; [done|]. split; [by rewrite Hlen', length_insert|].
    intros j. rewrite Hlook.
    destruct (decide (j = Z.to_nat a)) as [->|Hne].
    + rewrite list_lookup_insert_eq by lia. rewrite Z2Nat.id by lia.
      repeat case_bool_decide; try done; lia.
    + rewrite list_lookup_insert_ne by done.
      repeat case_bool_decide; try done; lia.
Qed.

Lemma cell_differs i j :
  0 < wn -> i <> j -> i mod wn <> j mod wn \/ i / wn <> j / wn.
Proof.
  intros Hpos Hne.
  destruct (decide (i mod wn = j mod wn)) as [Hx|]; [|by left].
  destruct (decide (i / wn = j / wn)) as [Hy|]; [|by right].
  exfalso. apply Hne.
  rewrite (Z.div_mod i wn), (Z.div_mod j wn) by lia. by rewrite Hx, Hy.
Qed.

Lemma chip_size i r :
  0 <= i < wn * hn -> Detector.Im (Spec.chip wn i) = Some r ->
  Image.Dx r = Detector.W /\ Image.Dy r = Detector.H.
Proof.
  intros Hi' [= <-]. pose proof grid_bounds as (Hwn & Hhn & _).
  pose proof (grid_cell i Hi') as (_ & Hx & Hy).
  unfold Image.Dx, Image.Dy, GoInt.sub, Detector.W, Detector.H. simpl.
  replace ((i mod wn + 1) * 300 - i mod wn * 300) with 300 by lia.
  replace ((i / wn + 1) * 300 - i / wn * 300) with 300 by lia.
  done.
Qed.

Lemma chip_disjoint i j r s :
  0 <= i < wn * hn -> 0 <= j < wn * hn -> i <> j ->
  Detector.Im (Spec.chip wn i) = Some r ->
  Detector.Im (Spec.chip wn j) = Some s ->
  Image.Overlaps r s = false /\
  forall p, Image.In p r = true -> Image.In p s = false.
Proof.
  intros Hi' Hj Hne [= <-] [= <-].
  pose proof (grid_cell i Hi') as (Hpos & Hxi & Hyi).
  pose proof (grid_cell j Hj) as (_ & Hxj & Hyj).
  pose proof (cell_differs i j Hpos Hne) as Hcell.
  unfold Detector.W, Detector.H. split.
  - apply not_true_is_false. intros Hov.
    unfold Image.Overlaps, Image.Empty in Hov. simpl in Hov. to_arith Hov. lia.
  - intros p Hr. apply not_true_is_false. intros Hs.
    unfold Image.In in Hr, Hs. simpl in Hr, Hs. to_arith Hr. to_arith Hs. lia.
Qed.

Lemma chip_inside i r p :
  0 <= i < wn * hn -> Detector.Im (Spec.chip wn i) = Some r ->
  Image.In p r = true ->
  0 <= Image.X p < wn * Detector.W /\ 0 <= Image.Y p < hn * Detector.H.
Proof.
  intros Hi' [= <-] Hin. pose proof (grid_cell i Hi') as (Hpos & Hx & Hy).
  unfold Image.In in Hin. simpl in Hin. to_arith Hin.
  unfold Detector.W, Detector.H in *. lia.
Qed.

(** Every pixel left of [wn*W] and above [hn*H] lies in the chip of its
    grid cell. *)
Lemma chip_cover (p : Image.Point) :
  0 <= Image.X p < wn * Detector.W -> 0 <= Image.Y p < hn * Detector.H ->
  exists i r,
    0 <= i < wn * hn /\ Detector.Im (Spec.chip wn i) = Some r /\
    Image.In p r = true.
Proof.
  unfold Detector.W, Detector.H. destruct p as [px py]. simpl. intros Hx Hy.
  pose proof grid_bounds as (Hwn & Hhn & _).
  pose proof (Z.div_mod px 300 ltac:(lia)) as Hpx.
  pose proof (Z.mod_pos_bound px 300 ltac:(lia)) as Hrx.
  pose proof (Z.div_mod py 300 ltac:(lia)) as Hpy.
  pose proof (Z.mod_pos_bound py 300 ltac:(lia)) as Hry.
  set (x := px / 300) in *. set (y := py / 300) in *.
  assert (Hxr : 0 <= x < wn) by lia.
  assert (Hyr : 0 <= y < hn) by lia.
  assert (Hmod : (x + y * wn) mod wn = x)
    by (rewrite Z_mod_plus_full; apply Z.mod_small; lia).
  assert (Hdiv : (x + y * wn) / wn = y)
    by (rewrite Z.div_add by lia; rewrite Z.div_small by lia; lia).
  exists (x + y * wn). eexists. split; [nia|]. split; [reflexivity|].
  unfold Image.In, Detector.W, Detector.H. simpl. rewrite Hmod, Hdiv.
  repeat (apply andb_true_iff; split);
    first [apply Z.leb_le | apply Z.ltb_lt]; lia.
Qed.

(** C1: the tiler yields [wn * hn] chips, [wn = floor(Wi/W)] and
    [hn = floor(Hi/H)]; chip [i] has grid coordinates [(i mod wn, i div wn)]
    and is the crop of the rectangle with corners [(x*W, y*H)] and
    [((x+1)*W, (y+1)*H)]; every chip is [W] by [H], two chips share no
    pixel, and no pixel at or beyond [wn*W] or [hn*H] is in a chip. *)
Theorem tiler_grid :
  exists chips,
    res (Detector.tile (Image.decoded Wi Hi)) = Done chips /\
    length chips = Z.to_nat (wn * hn) /\
    (forall i, 0 <= i < wn * hn ->
       chips !! Z.to_nat i =
       Some {| Detector.X := i mod wn;
               Detector.Y := i / wn;
               Detector.Im :=
                 Some {| Image.Min := {| Image.X := (i mod wn) * Detector.W;
                                         Image.Y := (i / wn) * Detector.H |};
                         Image.Max := {| Image.X := (i mod wn + 1) * Detector.W;
                                         Image.Y := (i / wn + 1) * Detector.H |} |} |}) /\
    (forall (i : nat) c r,
       chips !! i = Some c -> Detector.Im c = Some r ->
       Image.Dx r = Detector.W /\ Image.Dy r = Detector.H) /\
    (forall (i j : nat) c d r s,
       i <> j -> chips !! i = Some c -> chips !! j = Some d ->
       Detector.Im c = Some r -> Detector.Im d = Some s ->
       Image.Overlaps r s = false /\
       forall p, Image.In p r = true -> Image.In p s = false) /\
    (forall (i : nat) c r p,
       chips !! i = Some c -> Detector.Im c = Some r -> Image.In p r = true ->
       0 <= Image.X p < wn * Detector.W /\ 0 <= Image.Y p < hn * Detector.H).
Proof.
  pose proof grid_bounds as (Hwn & Hhn & _).
  pose proof grid_quo as [Hqw Hqh].
  assert (Hmul : GoInt.mul wn hn = wn * hn)
    by (apply wrap_id, in_range_small; nia).
  unfold Detector.tile. rewrite Hqw, Hqh, !lift_Ok_bind, Hmul.
  unfold make. destruct (Z.ltb_spec (wn * hn) 0) as [|_]; [nia|].
  rewrite lift_Ok_bind.
  destruct (tile_loop (Z.to_nat (wn * hn)) 0%nat 0
              (replicate (Z.to_nat (wn * hn)) Detector.zeroChip))
    as (chips & Hrun & Hlen & Hlook); [lia|lia|by rewrite length_replicate|].
  rewrite Z2Nat.id in Hrun by nia.
  exists chips. rewrite Hrun. cbn [res].
  assert (Hall : forall (j : nat) c, chips !! j = Some c ->
            0 <= Z.of_nat j < wn * hn /\ c = Spec.chip wn (Z.of_nat j)).
  { intros j c Hc. rewrite Hlook in Hc.
    repeat case_bool_decide; try lia; try done.
    split; [lia|congruence]. }
  split; [done|]. split; [by rewrite Hlen, length_replicate|].
  split; [|split; [|split]].
  - intros i Hi'. rewrite Hlook, Z2Nat.id by lia.
    repeat case_bool_decide; try lia. reflexivity.
  - intros i c r Hc Hr. destruct (Hall i c Hc) as [Hi' ->]. by eapply chip_size.
  - intros i j c d r s Hne Hc Hd Hr Hs.
    destruct (Hall i c Hc) as [Hi' ->]. destruct (Hall j d Hd) as [Hj ->].
    eapply (chip_disjoint (Z.of_nat i) (Z.of_nat j)); try done. lia.
  - intros i c r p Hc Hr. destruct (Hall i c Hc) as [Hi' ->]. by eapply chip_inside.
Qed.

End Tiler.


Lemma tile_undersized Wi Hi :
  0 <= Wi <= GoInt.max_int -> 0 <= Hi <= GoInt.max_int ->
  Wi < Detector.W \/ Hi < Detector.H ->
  (Wi / Detector.W = 0 \/ Hi / Detector.H = 0) /\
  Detector.tile (Image.decoded Wi Hi) = MkProg [] (Done []).
Proof.
  unfold GoInt.max_int, Detector.W, Detector.H. intros HWi HHi Hsmall.
  assert (Hq : forall z, 0 <= z <= 2 ^ 63 - 1 ->
            GoInt.quo (GoInt.sub z 0) 300 = Ok (z / 300) /\ 0 <= z / 300 <= z).
  { intros z Hz. unfold GoInt.quo, GoInt.sub. simpl.
    assert (0 <= z / 300 <= z).
    { split; [apply Z.div_pos; lia|]. apply Z.div_le_upper_bound; lia. }
    rewrite Z.sub_0_r, (wrap_id z), Z.quot_div_nonneg, wrap_id; try done;
      unfold GoInt.in_range, GoInt.min_int, GoInt.max_int; lia. }
  destruct (Hq Wi HWi) as [Hw Hwn], (Hq Hi HHi) as [Hh Hhn].
  assert (Hzero : Wi / 300 = 0 \/ Hi / 300 = 0).
  { destruct Hsmall; [left|right]; apply Z.div_small; lia. }
  split; [done|].
  unfold Detector.tile, Image.Dx, Image.Dy, Detector.W, Detector.H.
  rewrite decoded_bounds by lia. cbn [Image.X Image.Y Image.Min Image.Max].
  rewrite Hw, Hh, !lift_Ok_bind.
  assert (Hmul : GoInt.mul (Wi / 300) (Hi / 300) = 0).
  { unfold GoInt.mul. destruct Hzero as [-> | ->]; by rewrite ?Z.mul_0_r. }
  rewrite Hmul. reflexivity.
Qed.

(** ** The two programs *)

Section Programs.

Context {Tensor : Type}.
Variable world : World Tensor.
Variable unrep : float32 -> Z.

(** C10: with the model directory or the image path missing, either
    program prints the usage text and returns, status 0; nothing is
    loaded, no inference runs and no result is printed. *)
Theorem missing_flag_usage modeldir imagefile :
  modeldir = EmptyString \/ imagefile = EmptyString ->
  Detector.main unrep world modeldir imagefile = MkProg [Usage] (Done tt) /\
  status (Detector.main unrep world modeldir imagefile) = 0 /\
  Classifier.main world modeldir imagefile = MkProg [Usage] (Done tt) /\
  status (Classifier.main world modeldir imagefile) = 0.
Proof.
  intros Hmissing. unfold Detector.main, Classifier.main.
  assert (String.eqb modeldir "" || String.eqb imagefile "" = true) as ->.
  { destruct Hmissing as [-> | ->]; [done|]. apply orb_true_r. }
  done.
Qed.

(** C9: an image narrower or lower than one chip gives [wn = 0] or
    [hn = 0] and no chip; the detector then runs to its end without a
    failure, without an inference and without a detection line. *)
Theorem undersized_image modeldir imagefile model file Wi Hi :
  modeldir <> EmptyString -> imagefile <> EmptyString ->
  readFile world (Joined modeldir "multires.pb") = Some model ->
  graphImport world model = true ->
  newSession world = true ->
  readFile world (Named imagefile) = Some file ->
  jpegDecode world file = Some (Image.decoded Wi Hi) ->
  0 <= Wi <= GoInt.max_int -> 0 <= Hi <= GoInt.max_int ->
  Wi < Detector.W \/ Hi < Detector.H ->
  (Wi / Detector.W = 0 \/ Hi / Detector.H = 0) /\
  Detector.tile (Image.decoded Wi Hi) = MkProg [] (Done []) /\
  Detector.main unrep world modeldir imagefile =
  MkProg [ReadFile (Joined modeldir "multires.pb"); ImportGraph; NewSession;
          OpenFile (Named imagefile); DecodeJpeg] (Done tt) /\
  status (Detector.main unrep world modeldir imagefile) = 0.
Proof.
  intros Hdir Himg Hmodel Himport Hsession Hfile Hdecode HWi HHi Hsmall.
  destruct (tile_undersized Wi Hi HWi HHi Hsmall) as [Hzero Htile].
  assert (Hmain : Detector.main unrep world modeldir imagefile =
                  MkProg [ReadFile (Joined modeldir "multires.pb"); ImportGraph;
                          NewSession; OpenFile (Named imagefile); DecodeJpeg]
                         (Done tt)).
  { unfold Detector.main, modelFiles.
    apply String.eqb_neq in Hdir, Himg. rewrite Hdir, Himg.
    cbn [orb]. cbv beta iota.
    change (Joined modeldir ("multires" +:+ ".pb"))
      with (Joined modeldir "multires.pb").
    rewrite Hmodel, orFatal_Some_bind. cbv beta.
    rewrite Himport, orFatal_Some_bind. cbv beta.
    rewrite Hsession, orFatal_Some_bind. cbv beta.
    rewrite Hfile, orFatal_Some_bind. cbv beta.
    rewrite Hdecode, orFatal_Some_bind. cbv beta.
    rewrite Htile. reflexivity. }
  rewrite Hmain. done.
Qed.

Lemma print_loop (detects : list Detector.Detect) (k : nat) :
  forRange (fun _ d _ => emit (Detector.detectLine d)) k detects tt =
  MkProg (Detector.detectLine <$> detects) (Done tt).
Proof.
  revert k. induction detects as [|d detects IH]; intros k; [done|].
  cbn [forRange fmap list_fmap]. rewrite emit_bind, IH. done.
Qed.

Lemma detections_loop chip boxes classes (scores : list float32) :
  forall (i : nat) acc out,
    foldRange (fun i score detects =>
                 class ← index classes i;
                 box ← index boxes i;
                 bounds ← Detector.transformBox unrep
                            (Detector.X chip) (Detector.Y chip) box;
                 mret (detects ++
                       [{| Detector.Bounds := bounds;
                           Detector.Class := F32.to_int unrep class;
                           Detector.ChipRef := Some chip;
                           Detector.Description := EmptyString;
                           Detector.Confidence := score |}]))
              i scores acc = Ok out ->
    exists dets,
      out = acc ++ dets /\ length dets = length scores /\
      forall (k : nat) score,
        scores !! k = Some score ->
        exists class box bounds,
          classes !! (i + k)%nat = Some class /\
          boxes !! (i + k)%nat = Some box /\
          Detector.transformBox unrep (Detector.X chip) (Detector.Y chip) box
          = Ok bounds /\
          dets !! k = Some {| Detector.Bounds := bounds;
                              Detector.Class := F32.to_int unrep class;
                              Detector.ChipRef := Some chip;
                              Detector.Description := EmptyString;
                              Detector.Confidence := score |}.
Proof.
  induction scores as [|score scores IH]; intros i acc out.
  - cbn [foldRange mret outcome_ret]. intros [= <-].
    exists []. rewrite app_nil_r. split; [done|]. split; [done|]. intros k s Hk.
    by rewrite lookup_nil in Hk.
  - cbn [foldRange].
    destruct (index classes i) as [class|] eqn:Hclass;
      cbn [mbind outcome_bind]; [|discriminate].
    destruct (index boxes i) as [box|] eqn:Hbox;
      cbn [mbind outcome_bind]; [|discriminate].
    apply index_Ok in Hclass, Hbox.
    destruct (Detector.transformBox unrep _ _ box) as [bounds|] eqn:Hb;
      cbn [mbind outcome_bind mret outcome_ret]; [|discriminate].
    intros Hrest.
    destruct (IH _ _ _ Hrest) as (dets & -> & Hlen & Hdets).
    eexists (_ :: dets). rewrite <- app_assoc. split; [reflexivity|].
    split; [cbn [length]; by rewrite Hlen|].
    intros [|k] s Hk.
    + injection Hk as <-. exists class, box, bounds.
      by rewrite Nat.add_0_r.
    + destruct (Hdets k s Hk) as (c & b & bd & Hc & Hbx & Ht & Hd).
      exists c, b, bd. by rewrite <- Nat.add_succ_comm.
Qed.

(** C7: whenever a chip is processed to the end, the first line printed for
    it is the record of the zero-valued [Detect] the slice is created with,
    [0 0 0 0 0 0], which comes from no output of the model; it is followed
    by one line per score, in the order of the score array, line [k]
    printing the remapped box [k], the class [k] converted to [int] and the
    score [k].  A chip whose processing fails prints no record at all. *)
Theorem zero_record_first labelsfile (i : nat) chip :
  (res (Detector.inferChip unrep world labelsfile i chip) = Done tt ->
   exists tensor boxes scores classes dets lines,
     makeTensorFromImage world (Detector.chipPath (Z.of_nat i)) = Some tensor /\
     sessionRun world tensor = Some (boxes, scores, classes) /\
     Detector.detections unrep chip boxes scores classes =
     Ok (Detector.zeroDetect :: dets) /\
     trace (Detector.inferChip unrep world labelsfile i chip) =
     [MakeTensor (Detector.chipPath (Z.of_nat i)); SessionRun; OpenFile labelsfile]
       ++ Printf "%v %v %v %v %v %v
"
            [VInt 0; VInt 0; VInt 0; VInt 0; VInt 0; VFloat32 F32.zero]
       :: lines /\
     (forall fmtFloat,
        fmtFloat F32.zero = "0" ->
        Fmt.Sprintf fmtFloat "%v %v %v %v %v %v
" [VInt 0; VInt 0; VInt 0; VInt 0; VInt 0; VFloat32 F32.zero]
        = "0 0 0 0 0 0
") /\
     length dets = length scores /\
     length lines = length scores /\
     forall (k : nat) score,
       scores !! k = Some score ->
       exists class box bounds,
         classes !! k = Some class /\ boxes !! k = Some box /\
         Detector.transformBox unrep (Detector.X chip) (Detector.Y chip) box
         = Ok bounds /\
         dets !! k = Some {| Detector.Bounds := bounds;
                             Detector.Class := F32.to_int unrep class;
                             Detector.ChipRef := Some chip;
                             Detector.Description := EmptyString;
                             Detector.Confidence := score |} /\
         lines !! k =
         Some (Printf "%v %v %v %v %v %v
"
                 [VInt (Image.X (Image.Min bounds)); VInt (Image.Y (Image.Min bounds));
                  VInt (Image.X (Image.Max bounds)); VInt (Image.Y (Image.Max bounds));
                  VInt (F32.to_int unrep class); VFloat32 score])) /\
  (forall c,
     res (Detector.inferChip unrep world labelsfile i chip) = Exited c ->
     Forall (fun e => isPrintf e = false)
            (trace (Detector.inferChip unrep world labelsfile i chip))).
Proof.
  unfold Detector.inferChip.
  destruct (makeTensorFromImage world _) as [tensor|] eqn:Htensor;
    [rewrite orFatal_Some_bind|rewrite orFatal_None_bind]; cbv beta;
    [|split; [discriminate|intros c _; by repeat constructor]].
  destruct (sessionRun world tensor) as [[[boxes scores] classes]|] eqn:Hrun;
    [rewrite orFatal_Some_bind|rewrite orFatal_None_bind]; cbv beta iota;
    cbn [trace res];
    [|split; [discriminate|intros c _; by repeat constructor]].
  destruct (Detector.detections unrep chip boxes scores classes)
    as [detects|p] eqn:Hdet;
    [rewrite lift_Ok_bind|rewrite lift_Panicked_bind]; cbn [trace res];
    [|split; [discriminate|intros c _; by repeat constructor]].
  unfold Detector.printDetections.
  destruct (readFile world labelsfile) as [content|];
    [rewrite orFatal_Some_bind|rewrite orFatal_None_bind]; cbv beta;
    cbn [trace res];
    [|split; [discriminate|intros c _; by repeat constructor]].
  destruct (Detector.parseLabels content) as [labels|p];
    [rewrite lift_Ok_bind|rewrite lift_Panicked_bind]; cbn [trace res];
    [|split; [discriminate|intros c _; by repeat constructor]].
  rewrite print_loop. cbn [trace res]. split; [|discriminate]. intros _.
  destruct (detections_loop chip boxes classes scores 0%nat
              [Detector.zeroDetect] detects Hdet) as (dets & -> & Hlen & Hdets).
  exists tensor, boxes, scores, classes, dets, (Detector.detectLine <$> dets).
  split; [done|]. split; [done|]. split; [done|]. split; [done|].
  split.
  { intros fmtFloat Hzero. cbn [Fmt.Sprintf Fmt.verbV]. rewrite Hzero.
    reflexivity. }
  split; [done|]. split; [by rewrite length_fmap|].
  intros k score Hk.
  destruct (Hdets k score Hk) as (class & box & bounds & Hc & Hb & Ht & Hd).
  exists class, box, bounds.
  split; [done|]. split; [done|]. split; [done|]. split; [done|].
  rewrite list_lookup_fmap, Hd. reflexivity.
Qed.

End Programs.

Lemma tiler_grid_witness :
  exists chips,
    res (Detector.tile (Image.decoded 650 620)) = Done chips /\
    length chips = 4%nat /\
    chips !! 3%nat =
    Some {| Detector.X := 1; Detector.Y := 1;
            Detector.Im :=
              Some {| Image.Min := {| Image.X := 300; Image.Y := 300 |};
                      Image.Max := {| Image.X := 600; Image.Y := 600 |} |} |}.
Proof.
  destruct (tiler_grid 650 620) as (chips & Hres & Hlen & Hchip & _);
    [simpl; lia | simpl; lia |].
  exists chips. split; [exact Hres|]. split; [exact Hlen|].
  apply (Hchip 3). unfold Detector.W, Detector.H.
  change (650 `div` 300 * 620 `div` 300) with 4. lia.
Defined.

Lemma missing_flag_usage_witness :
  Detector.main amd64_unrep (sampleWorld 650 620) "" "cat.jpg" =
  MkProg [Usage] (Done tt) /\
  status (Detector.main amd64_unrep (sampleWorld 650 620) "" "cat.jpg") = 0 /\
  Classifier.main (sampleWorld 650 620) "" "cat.jpg" = MkProg [Usage] (Done tt) /\
  status (Classifier.main (sampleWorld 650 620) "" "cat.jpg") = 0.
Proof.
  apply (missing_flag_usage (sampleWorld 650 620) amd64_unrep "" "cat.jpg").
  left. reflexivity.
Defined.

Lemma undersized_image_witness :
  Detector.tile (Image.decoded 200 900) = MkProg [] (Done []) /\
  Detector.main amd64_unrep (sampleWorld 200 900) "models" "small.jpg" =
  MkProg [ReadFile (Joined "models" "multires.pb"); ImportGraph; NewSession;
          OpenFile (Named "small.jpg"); DecodeJpeg] (Done tt).
Proof.
  destruct (undersized_image (sampleWorld 200 900) amd64_unrep
              "models" "small.jpg" "" "" 200 900)
    as (_ & Htile & Hmain & _);
    try reflexivity; try discriminate;
    try (unfold GoInt.max_int, Detector.W; simpl; lia).
  split; [exact Htile | exact Hmain].
Defined.

(** ** Comparing [float32] values *)

Ltac float_cases :=
  unfold F32.leb, F32.ltb, F32.gtb, SFleb, SFltb, SFcompare; simpl;
  repeat match goal with
         | |- context [Z.compare ?x ?y] => destruct (Z.compare_spec x y)
         | |- context [Pos.compare_cont Eq ?x ?y] =>
             change (Pos.compare_cont Eq x y) with (Pos.compare x y);
             destruct (Pos.compare_spec x y)
         end;
  simpl; try done; try lia.

Lemma f32_not_gt_le (a b : float32) :
  F32.is_nan a = false -> F32.is_nan b = false ->
  F32.gtb a b = false -> F32.leb a b = true.
Proof.
  destruct a as [[]|[]| |[] ma ea], b as [[]|[]| |[] mb eb];
    try discriminate; intros _ _; float_cases.
Qed.

Lemma f32_le_lt_trans (a b c : float32) :
  F32.leb a b = true -> F32.ltb b c = true -> F32.ltb a c = true.
Proof.
  destruct a as [[]|[]| |[] ma ea], b as [[]|[]| |[] mb eb],
    c as [[]|[]| |[] mc ec]; float_cases.
Qed.

Lemma f32_lt_le (a b : float32) : F32.ltb a b = true -> F32.leb a b = true.
Proof.
  unfold F32.ltb, F32.leb, SFltb, SFleb.
  by destruct (SFcompare a b) as [[]|].
Qed.

Lemma f32_le_refl (a : float32) : F32.is_nan a = false -> F32.leb a a = true.
Proof.
  destruct a as [[]|[]| |[] ma ea]; try discriminate; intros _; float_cases.
Qed.

(** ** The classifier's arg-max *)

Section ArgMax.

Variable probabilities : list float32.
Hypothesis no_nan : Forall (fun p => F32.is_nan p = false) probabilities.

Lemma lookup_no_nan (j : nat) q :
  probabilities !! j = Some q -> F32.is_nan q = false.
Proof.
  intros Hq. rewrite Forall_forall in no_nan. apply no_nan.
  apply list_elem_of_lookup. by exists j.
Qed.

Lemma best_step (i b : nat) p :
  probabilities !! i = Some p -> (b <= i)%nat -> Spec.best_so_far probabilities i b ->
  exists b',
    (best ← index probabilities b; mret (if F32.gtb p best then i else b))
    = Ok b' /\ (b' <= i)%nat /\ Spec.best_so_far probabilities (S i) b'.
Proof.
  intros Hp Hle (pb & Hb & Hmax & Hfirst).
  apply index_Ok in Hb as Hidx. rewrite Hidx. cbn [mbind outcome_bind mret outcome_ret].
  pose proof (lookup_no_nan i p Hp) as Hnp.
  pose proof (lookup_no_nan b pb Hb) as Hnb.
  destruct (F32.gtb p pb) eqn:Hgt.
  - exists i. split; [done|]. split; [done|]. exists p. split; [done|].
    assert (Hlt : forall (j : nat) q, (j < i)%nat -> probabilities !! j = Some q ->
                               F32.ltb q p = true).
    { intros j q Hj Hq. apply (f32_le_lt_trans q pb p); [by eapply Hmax|done]. }
    split; [|done]. intros j q Hj Hq.
    destruct (decide (j = i)) as [->|Hne].
    + rewrite Hp in Hq. injection Hq as <-. by apply f32_le_refl.
    + apply f32_lt_le, (Hlt j); [lia|done].
  - exists b. split; [done|]. split; [done|]. exists pb. split; [done|].
    split; [|done]. intros j q Hj Hq.
    destruct (decide (j = i)) as [->|Hne].
    + rewrite Hp in Hq. injection Hq as <-. by apply f32_not_gt_le.
    + apply (Hmax j); [lia|done].
Qed.

Lemma best_loop (l : list float32) :
  forall (pre : list float32) (b : nat),
    probabilities = pre ++ l -> (b <= length pre)%nat ->
    (l <> [] \/ pre <> []) ->
    Spec.best_so_far probabilities (length pre) b ->
    exists b',
      foldRange (fun i p bestIdx =>
                   best ← index probabilities bestIdx;
                   mret (if F32.gtb p best then i else bestIdx))
                (length pre) l b = Ok b' /\
      Spec.best_so_far probabilities (length probabilities) b'.
Proof.
  induction l as [|p l IH]; intros pre b Heq Hle Hne Hinv.
  - exists b. split; [done|].
    assert (length probabilities = length pre) as -> by (by rewrite Heq, app_nil_r).
    done.
  - cbn [foldRange].
    assert (Hp : probabilities !! length pre = Some p).
    { rewrite Heq. by rewrite list_lookup_middle. }
    destruct (best_step (length pre) b p Hp Hle Hinv) as (b' & -> & Hle' & Hinv').
    cbn [mbind outcome_bind].
    destruct (IH (pre ++ [p]) b') as (b'' & Hrun & Hfin).
    + by rewrite <- app_assoc.
    + rewrite length_app. simpl. lia.
    + right. by destruct pre.
    + rewrite length_app. simpl. by rewrite Nat.add_1_r.
    + exists b''. split; [|done].
      rewrite length_app in Hrun. simpl in Hrun. by rewrite Nat.add_1_r in Hrun.
Qed.

Lemma bestIndex_max :
  probabilities <> [] ->
  exists b p,
    Classifier.bestIndex probabilities = Ok b /\
    probabilities !! b = Some p /\
    (forall (j : nat) q, probabilities !! j = Some q -> F32.leb q p = true) /\
    (forall (j : nat) q, (j < b)%nat -> probabilities !! j = Some q ->
                         F32.ltb q p = true).
Proof.
  intros Hne.
  assert (Hlen : (0 < length probabilities)%nat).
  { destruct (decide (length probabilities = 0%nat)) as [Hz|]; [|lia].
    by apply nil_length_inv in Hz. }
  destruct (lookup_lt_is_Some_2 probabilities 0%nat Hlen) as [p0 Hp0].
  destruct (best_loop probabilities [] 0%nat) as (b & Hrun & pb & Hb & Hmax & Hfirst).
  - done.
  - done.
  - left. done.
  - exists p0. split; [done|]. split; intros j q Hj; simpl in Hj; lia.
  - exists b, pb. split; [exact Hrun|]. split; [done|].
    split; [|done]. intros j q Hq. apply (Hmax j q); [|done].
    by apply lookup_lt_Some in Hq.
Qed.

End ArgMax.

(** C6: on a non-empty vector of probabilities the classifier picks the
    index of the greatest value, the first one among equals, and prints that
    index's label with its probability (as a percentage); on
    [[0.1, 0.7, 0.2]] with labels [cat], [dog], [bird] it picks [dog] with
    [0.7]. *)
Theorem best_label (probabilities : list float32) :
  probabilities <> [] ->
  Forall (fun p => F32.is_nan p = false) probabilities ->
  (exists (b : nat) p,
     Classifier.bestIndex probabilities = Ok b /\
     probabilities !! b = Some p /\
     (forall (j : nat) q, probabilities !! j = Some q -> F32.leb q p = true) /\
     (forall (j : nat) q, (j < b)%nat -> probabilities !! j = Some q ->
                          F32.ltb q p = true) /\
     forall (Tensor : Type) (world : World Tensor) labelsFile content labels err label,
       readFile world labelsFile = Some content ->
       Bufio.ScanLines content = (labels, err) ->
       labels !! b = Some label ->
       Classifier.printBestLabel world probabilities labelsFile =
       MkProg (OpenFile labelsFile
                 :: (if err then [LogPrintf] else [])
                 ++ [Printf "BEST MATCH: (%2.0f%% likely) %s
" [VFloat32 (F32.mul p (F32.of_int 100)); VString label]])
              (Done tt)) /\
  (Classifier.bestIndex
     [F32.div (F32.of_int 1) (F32.of_int 10);
      F32.div (F32.of_int 7) (F32.of_int 10);
      F32.div (F32.of_int 2) (F32.of_int 10)] = Ok 1%nat /\
   forall (Tensor : Type) (world : World Tensor) labelsFile,
     readFile world labelsFile = Some "cat
dog
bird
" ->
     Classifier.printBestLabel world
       [F32.div (F32.of_int 1) (F32.of_int 10);
        F32.div (F32.of_int 7) (F32.of_int 10);
        F32.div (F32.of_int 2) (F32.of_int 10)] labelsFile =
     MkProg [OpenFile labelsFile;
             Printf "BEST MATCH: (%2.0f%% likely) %s
" [VFloat32 (F32.mul (F32.div (F32.of_int 7) (F32.of_int 10)) (F32.of_int 100));
   VString "dog"]]
            (Done tt)).
Proof.
  intros Hne Hnan. split.
  - destruct (bestIndex_max probabilities Hnan Hne)
      as (b & p & Hbest & Hp & Hmax & Hfirst).
    exists b, p. do 4 (split; [done|]).
    intros Tensor world labelsFile content labels err label Hread Hscan Hlabel.
    unfold Classifier.printBestLabel.
    rewrite Hbest, lift_Ok_bind, Hread, orFatal_Some_bind. cbv beta.
    rewrite Hscan. cbv iota beta.
    apply index_Ok in Hp, Hlabel. rewrite Hp, Hlabel.
    by destruct err.
  - split; [by vm_compute|].
    intros Tensor world labelsFile Hread.
    unfold Classifier.printBestLabel.
    replace (Classifier.bestIndex _) with (Ok (A := nat) 1%nat) by (by vm_compute).
    rewrite lift_Ok_bind, Hread, orFatal_Some_bind. by vm_compute.
Qed.

Lemma best_label_witness :
  exists p,
    Classifier.bestIndex [F32.of_int 1; F32.of_int 3; F32.of_int 3; F32.of_int 2]
    = Ok 1%nat /\
    [F32.of_int 1; F32.of_int 3; F32.of_int 3; F32.of_int 2] !! 1%nat = Some p /\
    Classifier.printBestLabel (sampleWorld 650 620)
      [F32.of_int 1; F32.of_int 3; F32.of_int 3; F32.of_int 2]
      (Joined "models" "labels.txt") =
    MkProg [OpenFile (Joined "models" "labels.txt");
            Printf "BEST MATCH: (%2.0f%% likely) %s
" [VFloat32 (F32.mul p (F32.of_int 100)); VString "1:car"]]
           (Done tt).
Proof.
  destruct (best_label [F32.of_int 1; F32.of_int 3; F32.of_int 3; F32.of_int 2])
    as [(b & p & Hbest & Hp & _ & _ & Hprint) _].
  - discriminate.
  - repeat constructor.
  - assert (Hb : b = 1%nat) by (vm_compute in Hbest; congruence).
    rewrite Hb in Hbest, Hp, Hprint.
    exists p. split; [exact Hbest|]. split; [exact Hp|].
    apply (Hprint unit (sampleWorld 650 620) (Joined "models" "labels.txt")
             "0:person
1:car
" ["0:person"; "1:car"] false "1:car"); reflexivity.
Defined.


(** ** The detector's label table *)

Lemma append_nil (b : string) : EmptyString +:+ b = b.
Proof. reflexivity. Qed.

Lemma append_cons (c : ascii) (a b : string) :
  String c a +:+ b = String c (a +:+ b).
Proof. reflexivity. Qed.

Lemma Split_nonempty (s : string) (sep : ascii) : Strings.Split s sep <> [].
Proof.
  induction s as [|c s IH]; [done|]. simpl.
  destruct (Ascii.eqb c sep); [done|]. by destruct (Strings.Split s sep).
Qed.

(** Splitting stops a piece at the first separator. *)
Lemma Split_first (a b : string) (sep : ascii) :
  Strings.Contains a sep = false ->
  Strings.Split (a +:+ String sep b) sep = a :: Strings.Split b sep.
Proof.
  induction a as [|c a IH]; intros Hno.
  - rewrite append_nil. simpl. by rewrite Ascii.eqb_refl.
  - simpl in Hno. apply orb_false_iff in Hno as [Hc Ha].
    rewrite append_cons. simpl. rewrite Hc, (IH Ha). done.
Qed.

Lemma Split_none (a : string) (sep : ascii) :
  Strings.Contains a sep = false -> Strings.Split a sep = [a].
Proof.
  induction a as [|c a IH]; intros Hno; [done|].
  simpl in Hno. apply orb_false_iff in Hno as [Hc Ha].
  simpl. by rewrite Hc, (IH Ha).
Qed.

Lemma labelRow_cases (line : string) (labels : gmap Z string) :
  Detector.labelRow line labels =
  match Strings.Split line ":" with
  | idtext :: description :: _ =>
      Ok (<[fst (Strconv.Atoi idtext) := description]> labels)
  | _ => Panicked IndexOutOfRange
  end.
Proof.
  unfold Detector.labelRow.
  destruct (Strings.Split line ":") as [|idtext [|description pieces]]; cbn;
    try done; by destruct (Strconv.Atoi idtext).
Qed.

Lemma foldRange_index {A St : Type} (body : A -> St -> outcome St)
    (l : list A) (i j : nat) (s : St) :
  foldRange (fun _ => body) i l s = foldRange (fun _ => body) j l s.
Proof.
  revert i j s. induction l as [|a l IH]; intros i j s; [done|].
  cbn [foldRange]. destruct (body a s); cbn [mbind outcome_bind]; [|done].
  apply IH.
Qed.

Lemma labelRows_cons (line : string) (lines : list string) (labels : gmap Z string) :
  Detector.labelRows (line :: lines) labels =
  (labels' ← Detector.labelRow line labels; Detector.labelRows lines labels').
Proof.
  unfold Detector.labelRows. cbn [foldRange].
  destruct (Detector.labelRow line labels); cbn [mbind outcome_bind]; [|done].
  apply (foldRange_index (fun line labels => Detector.labelRow line labels)).
Qed.

Lemma labelRows_app (before after : list string) (labels : gmap Z string) :
  Detector.labelRows (before ++ after) labels =
  (labels' ← Detector.labelRows before labels; Detector.labelRows after labels').
Proof.
  revert labels. induction before as [|line before IH]; intros labels; [done|].
  rewrite <- app_comm_cons, !labelRows_cons.
  destruct (Detector.labelRow line labels); cbn [mbind outcome_bind]; [|done].
  apply IH.
Qed.

(** Two tables that agree away from [id] still do after the same rows. *)
Lemma labelRows_agree (id : Z) (lines : list string) :
  forall (m m' : gmap Z string),
    (forall k, k <> id -> m' !! k = m !! k) ->
    match Detector.labelRows lines m with
    | Ok t => exists t', Detector.labelRows lines m' = Ok t' /\
                         forall k, k <> id -> t' !! k = t !! k
    | Panicked p => Detector.labelRows lines m' = Panicked p
    end.
Proof.
  induction lines as [|line lines IH]; intros m m' Hagree.
  - exists m'. done.
  - rewrite !labelRows_cons, !labelRow_cases.
    destruct (Strings.Split line ":") as [|idtext [|description pieces]];
      cbn [mbind outcome_bind]; try done.
    apply IH. intros k Hk.
    destruct (decide (k = fst (Strconv.Atoi idtext))) as [->|Hne].
    + by rewrite !lookup_insert_eq.
    + rewrite !lookup_insert_ne by done. by apply Hagree.
Qed.

Lemma Atoi_error (s : string) (id : Z) (err : Strconv.numError) :
  Strconv.Atoi s = (id, Some err) ->
  match err with
  | Strconv.ErrSyntax => id = 0
  | Strconv.ErrRange => id = GoInt.max_int \/ id = GoInt.min_int
  end.
Proof.
  unfold Strconv.Atoi, Strconv.ParseInt. destruct s as [|c s].
  - by intros [= <- <-].
  - destruct (Strconv.ParseUint _) as [un [[]|]];
      repeat match goal with
             | |- context [if ?b then _ else _] => destruct b
             end;
      intros Heq; inversion Heq; subst;
      first [reflexivity | left; reflexivity | right; reflexivity].
Qed.

(** C4, as stated, fails twice: a row whose id does not parse replaces the
    entry of the well-formed row with id 0, and a row without a colon ends
    the program with a panic. *)
Lemma malformed_row_counterexample :
  Detector.parseLabels "0:person
x:oops
" = Ok (<[0 := "oops"]> ∅) /\
  Spec.labels_skipping (fst (Bufio.ScanLines "0:person
x:oops
")) = <[0 := "person"]> ∅ /\
  (<[0 := "oops"]> ∅ : gmap Z string) !! 0 <> (<[0 := "person"]> ∅ : gmap Z string) !! 0 /\
  Detector.parseLabels "0:person
oops
1:car
" = Panicked IndexOutOfRange.
Proof.
  split; [by vm_compute|]. split; [by vm_compute|]. split; [|by vm_compute].
  rewrite !lookup_insert_eq. discriminate.
Qed.

(** C4, as amended: a row with a colon whose id does not parse raises no
    error and no panic; the conversion error is dropped and the row's
    description, its second piece (the text between its first colon and
    the next one, all of the text after the colon when there is no other),
    is entered under the id [Atoi] returns with the error (0 after a syntax
    error, the nearest bound after a range error), replacing an entry under
    that id; the entries under every other id are those of the file without
    the row, and the rows after it are parsed as before. *)
Theorem bad_id_row (idtext rest : string) (id : Z) (err : Strconv.numError) :
  Strings.Contains idtext ":" = false ->
  Strconv.Atoi idtext = (id, Some err) ->
  (forall labels,
     Detector.labelRow (idtext +:+ String ":" rest) labels =
     Ok (<[id := hd EmptyString (Strings.Split rest ":")]> labels)) /\
  (Strings.Split (idtext +:+ String ":" rest) ":" =
   idtext :: Strings.Split rest ":") /\
  (Strings.Contains rest ":" = false ->
   forall labels,
     Detector.labelRow (idtext +:+ String ":" rest) labels =
     Ok (<[id := rest]> labels)) /\
  match err with
  | Strconv.ErrSyntax => id = 0
  | Strconv.ErrRange => id = GoInt.max_int \/ id = GoInt.min_int
  end /\
  (forall before after init table,
     Detector.labelRows (before ++ after) init = Ok table ->
     exists table',
       Detector.labelRows (before ++ (idtext +:+ String ":" rest) :: after) init
       = Ok table' /\
       forall k, k <> id -> table' !! k = table !! k) /\
  (forall before after init p,
     Detector.labelRows (before ++ after) init = Panicked p ->
     Detector.labelRows (before ++ (idtext +:+ String ":" rest) :: after) init
     = Panicked p).
Proof.
  intros Hno Hatoi.
  assert (Hrow : forall labels,
             Detector.labelRow (idtext +:+ String ":" rest) labels =
             Ok (<[id := hd EmptyString (Strings.Split rest ":")]> labels)).
  { intros labels.
    rewrite labelRow_cases, (Split_first _ _ _ Hno), Hatoi.
    destruct (Strings.Split rest ":") as [|description pieces] eqn:Hsplit;
      [by apply Split_nonempty in Hsplit|done]. }
  split; [exact Hrow|]. split; [by apply Split_first|].
  split; [intros Hrest labels; by rewrite Hrow, (Split_none _ _ Hrest)|].
  split; [by apply (Atoi_error idtext)|].
  assert (Hmid : forall before after init,
             match Detector.labelRows (before ++ after) init with
             | Ok t => exists t',
                 Detector.labelRows
                   (before ++ (idtext +:+ String ":" rest) :: after) init = Ok t' /\
                 forall k, k <> id -> t' !! k = t !! k
             | Panicked p =>
                 Detector.labelRows
                   (before ++ (idtext +:+ String ":" rest) :: after) init
                 = Panicked p
             end).
  { intros before after init. rewrite !labelRows_app.
    destruct (Detector.labelRows before init) as [m|p];
      cbn [mbind outcome_bind]; [|done].
    rewrite labelRows_cons, Hrow. cbn [mbind outcome_bind].
    apply labelRows_agree. intros k Hk. by rewrite lookup_insert_ne. }
  split.
  - intros before after init table Hrun.
    specialize (Hmid before after init). by rewrite Hrun in Hmid.
  - intros before after init p Hrun.
    specialize (Hmid before after init). by rewrite Hrun in Hmid.
Qed.

Lemma bad_id_row_witness :
  Detector.labelRow ("x" +:+ String ":" "oops") (<[0 := "person"]> ∅) =
  Ok (<[0 := "oops"]> (<[0 := "person"]> ∅)) /\
  exists table',
    Detector.labelRows (["0:person"] ++ ("x" +:+ String ":" "oops") :: ["1:car"]) ∅
    = Ok table' /\
    forall k, k <> 0 ->
              table' !! k = (<[1 := "car"]> (<[0 := "person"]> ∅) : gmap Z string) !! k.
Proof.
  destruct (bad_id_row "x" "oops" 0 Strconv.ErrSyntax eq_refl eq_refl)
    as (_ & _ & Hrow & _ & Hrows & _).
  split; [apply Hrow; reflexivity|].
  apply (Hrows ["0:person"] ["1:car"] ∅). reflexivity.
Defined.

(** *** Decimal ids *)

Lemma digit_cases (d : Z) :
  0 <= d <= 9 ->
  d = 0 \/ d = 1 \/ d = 2 \/ d = 3 \/ d = 4 \/ d = 5 \/ d = 6 \/ d = 7 \/ d = 8 \/ d = 9.
Proof. lia. Qed.

Lemma digit_char_spec (d : Z) :
  0 <= d <= 9 ->
  Strconv.digit (Spec.digit_char d) = Some d /\
  Ascii.eqb (Spec.digit_char d) ":" = false /\
  Ascii.eqb (Spec.digit_char d) "+" = false /\
  Ascii.eqb (Spec.digit_char d) "-" = false.
Proof.
  intros Hd. destruct (digit_cases d Hd) as [->|[->|[->|[->|[->|[->|[->|[->|[->| ->]]]]]]]]];
    by vm_compute.
Qed.

Lemma decimal_from_ge (ds : list Z) :
  forall n, Forall (fun d => 0 <= d <= 9) ds -> 0 <= n -> n <= Spec.decimal_from n ds.
Proof.
  induction ds as [|d ds IH]; intros n Hds Hn; [done|].
  apply Forall_cons in Hds as [Hd Hds]. unfold Spec.decimal_from in *. simpl.
  specialize (IH (n * 10 + d) Hds ltac:(lia)). lia.
Qed.

Lemma parseDigits_numeral (ds : list Z) :
  forall n,
    Forall (fun d => 0 <= d <= 9) ds -> 0 <= n ->
    Spec.decimal_from n ds <= Strconv.maxUint64 ->
    Strconv.parseDigits (Spec.numeral ds) n = (Spec.decimal_from n ds, None).
Proof.
  induction ds as [|d ds IH]; intros n Hds Hn Hmax; [done|].
  apply Forall_cons in Hds as [Hd Hds]. simpl.
  destruct (digit_char_spec d Hd) as (-> & _).
  pose proof (decimal_from_ge ds (n * 10 + d) Hds ltac:(lia)) as Hge.
  unfold Spec.decimal_from in *. simpl in Hmax.
  destruct (Z.ltb_spec Strconv.maxUint64 (n * 10 + d)); [lia|].
  apply IH; [done|lia|done].
Qed.

Lemma numeral_no_colon (ds : list Z) :
  Forall (fun d => 0 <= d <= 9) ds -> Strings.Contains (Spec.numeral ds) ":" = false.
Proof.
  induction 1 as [|d ds Hd Hds IH]; [done|]. simpl.
  destruct (digit_char_spec d Hd) as (_ & -> & _). done.
Qed.

(** [Atoi] reads a decimal numeral that fits [int] as its value. *)
Lemma Atoi_numeral (ds : list Z) :
  ds <> [] -> Forall (fun d => 0 <= d <= 9) ds ->
  Spec.decimal ds <= GoInt.max_int ->
  Strconv.Atoi (Spec.numeral ds) = (Spec.decimal ds, None).
Proof.
  intros Hne Hds Hmax. destruct ds as [|d ds]; [done|].
  pose proof (parseDigits_numeral (d :: ds) 0 Hds ltac:(lia)) as Hparse.
  apply Forall_cons in Hds as [Hd Hds].
  destruct (digit_char_spec d Hd) as (_ & _ & Hplus & Hminus).
  unfold Strconv.Atoi, Strconv.ParseInt. cbn [Spec.numeral].
  rewrite Hplus, Hminus. cbn [orb negb andb].
  unfold Strconv.ParseUint. cbn [Spec.numeral] in Hparse.
  unfold Spec.decimal, GoInt.max_int, Strconv.maxUint64 in *.
  rewrite Hparse by lia.
  destruct (Z.leb_spec (2 ^ 63) (Spec.decimal_from 0 (d :: ds))); [lia|done].
Qed.

(** C5, as stated, fails: the row [1:a:b] is entered as [1 -> a], not as
    [1 -> a:b]. *)
Lemma first_colon_counterexample :
  Detector.parseLabels "1:a:b" = Ok (<[1 := "a"]> ∅) /\
  Spec.labels_first_colon (fst (Bufio.ScanLines "1:a:b")) = <[1 := "a:b"]> ∅ /\
  (<[1 := "a"]> ∅ : gmap Z string) !! 1 <> (<[1 := "a:b"]> ∅ : gmap Z string) !! 1.
Proof.
  split; [by vm_compute|]. split; [by vm_compute|].
  rewrite !lookup_insert_eq. discriminate.
Qed.

(** C5, as amended: each line is split at every colon; the first piece is
    read as the id and the second piece, the text between the first colon
    and the second (or the end of the line), is the description, later
    pieces being dropped.  A decimal id is read as its value.  For the
    content [0:person], [1:car] the table maps 0 to [person] and 1 to
    [car]. *)
Theorem label_row_fields (idtext description : string) :
  Strings.Contains idtext ":" = false ->
  Strings.Contains description ":" = false ->
  (forall labels,
     Detector.labelRow (idtext +:+ String ":" description) labels =
     Ok (<[fst (Strconv.Atoi idtext) := description]> labels)) /\
  (forall more labels,
     Detector.labelRow (idtext +:+ String ":" (description +:+ String ":" more))
                       labels =
     Ok (<[fst (Strconv.Atoi idtext) := description]> labels)) /\
  (forall ds,
     idtext = Spec.numeral ds -> ds <> [] ->
     Forall (fun d => 0 <= d <= 9) ds -> Spec.decimal ds <= GoInt.max_int ->
     fst (Strconv.Atoi idtext) = Spec.decimal ds) /\
  Detector.parseLabels "0:person
1:car
" = Ok (<[1 := "car"]> (<[0 := "person"]> ∅)) /\
  (<[1 := "car"]> (<[0 := "person"]> ∅) : gmap Z string) !! 0 = Some "person" /\
  (<[1 := "car"]> (<[0 := "person"]> ∅) : gmap Z string) !! 1 = Some "car".
Proof.
  intros Hid Hdesc. split; [|split; [|split; [|split; [|split]]]].
  - intros labels.
    by rewrite labelRow_cases, (Split_first _ _ _ Hid), (Split_none _ _ Hdesc).
  - intros more labels.
    rewrite labelRow_cases, (Split_first _ _ _ Hid), (Split_first _ _ _ Hdesc).
    done.
  - intros ds -> Hne Hds Hmax. by rewrite Atoi_numeral.
  - by vm_compute.
  - by rewrite lookup_insert_ne, lookup_insert_eq.
  - by rewrite lookup_insert_eq.
Qed.

Lemma label_row_fields_witness :
  Detector.labelRow ("7" +:+ String ":" ("dog" +:+ String ":" "extra")) ∅ =
  Ok (<[fst (Strconv.Atoi "7") := "dog"]> ∅).
Proof.
  destruct (label_row_fields "7" "dog" eq_refl eq_refl) as (_ & Hmore & _).
  apply (Hmore "extra" ∅).
Defined.

Lemma zero_record_first_witness :
  exists lines,
    trace (Detector.inferChip amd64_unrep (sampleWorld 650 620)
             (Joined "models" "labels.txt") 0 (Spec.chip 2 0)) =
    [MakeTensor (Detector.chipPath 0); SessionRun;
     OpenFile (Joined "models" "labels.txt")]
      ++ Printf "%v %v %v %v %v %v
"
           [VInt 0; VInt 0; VInt 0; VInt 0; VInt 0; VFloat32 F32.zero]
      :: lines.
Proof.
  destruct (proj1 (zero_record_first (sampleWorld 650 620) amd64_unrep
                     (Joined "models" "labels.txt") 0 (Spec.chip 2 0)))
    as (tensor & boxes & scores & classes & dets & lines & _ & _ & _ & Htrace & _).
  - vm_compute. reflexivity.
  - exists lines. exact Htrace.
Defined.


(** ** Two whole runs *)

(** The detector on an image of one chip: the zero record, then the one
    detection of the model. *)
Example detector_run :
  Detector.main amd64_unrep (sampleWorld 350 300) "models" "cat.jpg" =
  MkProg
    [ReadFile (Joined "models" "multires.pb"); ImportGraph; NewSession;
     OpenFile (Named "cat.jpg"); DecodeJpeg;
     WritePng (Named "/tmp/chip-0.png")
       {| Image.Min := {| Image.X := 0; Image.Y := 0 |};
          Image.Max := {| Image.X := 300; Image.Y := 300 |} |};
     MakeTensor (Named "/tmp/chip-0.png"); SessionRun;
     OpenFile (Joined "models" "labels.txt");
     Printf "%v %v %v %v %v %v
" [VInt 0; VInt 0; VInt 0; VInt 0; VInt 0; VFloat32 F32.zero];
     Printf "%v %v %v %v %v %v
" [VInt 0; VInt 0; VInt 300; VInt 300; VInt 1;
   VFloat32 (F32.div (F32.of_int 7) (F32.of_int 10))]]
    (Done tt).
Proof. by vm_compute. Qed.

(** The classifier in the same world: the scores are read as the
    probabilities and line 0 of the label file is the label. *)
Example classifier_run :
  Classifier.main (sampleWorld 350 300) "models" "cat.jpg" =
  MkProg
    [ReadFile (Joined "models" "vanilla.pb"); ImportGraph; NewSession;
     MakeTensor (Named "cat.jpg"); SessionRun;
     OpenFile (Joined "models" "labels.txt");
     Printf "BEST MATCH: (%2.0f%% likely) %s
" [VFloat32 (F32.of_int 70); VString "0:person"]]
    (Done tt).
Proof. by vm_compute. Qed.

(** * Further properties of the code *)

(** ** Bounds of the remapper and of the detection loop *)

Lemma transformBox_first_four unrep chipX chipY (box : list float32) :
  match Detector.transformBox unrep chipX chipY box with
  | Ok r =>
      (4 <= length box)%nat /\
      Detector.transformBox unrep chipX chipY (take 4 box) = Ok r
  | Panicked p => p = IndexOutOfRange /\ (length box < 4)%nat
  end.
Proof.
  destruct box as [|b0 [|b1 [|b2 [|b3 rest]]]]; cbn; try (split; [done|lia]).
  split; [lia|done].
Qed.

(** X1: [transformBox] reads exactly the first four elements of the box:
    with fewer it panics on the index, with four or more it returns what it
    returns on the first four. *)
Theorem transformBox_bounds unrep chipX chipY (box : list float32) :
  match Detector.transformBox unrep chipX chipY box with
  | Ok r =>
      (4 <= length box)%nat /\
      Detector.transformBox unrep chipX chipY (take 4 box) = Ok r
  | Panicked p => p = IndexOutOfRange /\ (length box < 4)%nat
  end.
Proof. apply transformBox_first_four. Qed.

Lemma detections_panic unrep chip boxes classes (scores : list float32) :
  forall (i : nat) acc p,
    foldRange (fun i score detects =>
                 class ← index classes i;
                 box ← index boxes i;
                 bounds ← Detector.transformBox unrep
                            (Detector.X chip) (Detector.Y chip) box;
                 mret (detects ++
                       [{| Detector.Bounds := bounds;
                           Detector.Class := F32.to_int unrep class;
                           Detector.ChipRef := Some chip;
                           Detector.Description := EmptyString;
                           Detector.Confidence := score |}]))
              i scores acc = Panicked p ->
    p = IndexOutOfRange /\
    exists k : nat,
      (k < length scores)%nat /\
      (classes !! (i + k)%nat = None \/
       boxes !! (i + k)%nat = None \/
       exists box, boxes !! (i + k)%nat = Some box /\ (length box < 4)%nat).
Proof.
  induction scores as [|score scores IH]; intros i acc p; [discriminate|].
  cbn [foldRange].
  destruct (index classes i) as [class|q] eqn:Hclass; cbn [mbind outcome_bind].
  - destruct (index boxes i) as [box|q] eqn:Hbox; cbn [mbind outcome_bind].
    + pose proof (transformBox_first_four unrep (Detector.X chip) (Detector.Y chip) box)
        as Hbounds.
      destruct (Detector.transformBox unrep _ _ box) as [bounds|q];
        cbn [mbind outcome_bind mret outcome_ret].
      * intros Hrest. destruct (IH _ _ _ Hrest) as (-> & k & Hk & Hbad).
        split; [done|]. exists (S k). split; [simpl; lia|].
        by rewrite <- Nat.add_succ_comm.
      * intros [= <-]. destruct Hbounds as [-> Hlen]. split; [done|].
        exists 0%nat. split; [simpl; lia|]. rewrite Nat.add_0_r.
        apply index_Ok in Hbox. right. right. by exists box.
    + intros [= <-]. unfold index in Hbox.
      destruct (boxes !! i) eqn:Hb; [done|]. injection Hbox as <-.
      split; [done|]. exists 0%nat. split; [simpl; lia|].
      rewrite Nat.add_0_r. by right; left.
  - intros [= <-]. unfold index in Hclass.
    destruct (classes !! i) eqn:Hc; [done|]. injection Hclass as <-.
    split; [done|]. exists 0%nat. split; [simpl; lia|].
    rewrite Nat.add_0_r. by left.
Qed.

(** X2: the detection loop of one chip turns every score into a record,
    whatever its value, after the zero record; it panics (always on an
    index) exactly when some score has no class, no box, or a box of fewer
    than four elements. *)
Theorem detections_bounds unrep chip boxes (scores classes : list float32) :
  match Detector.detections unrep chip boxes scores classes with
  | Ok detects =>
      length detects = S (length scores) /\
      forall i : nat,
        (i < length scores)%nat ->
        is_Some (classes !! i) /\
        exists box, boxes !! i = Some box /\ (4 <= length box)%nat
  | Panicked p =>
      p = IndexOutOfRange /\
      exists i : nat,
        (i < length scores)%nat /\
        (classes !! i = None \/ boxes !! i = None \/
         exists box, boxes !! i = Some box /\ (length box < 4)%nat)
  end.
Proof.
  unfold Detector.detections.
  destruct (foldRange _ 0%nat scores [Detector.zeroDetect]) as [detects|p] eqn:Hrun.
  - destruct (detections_loop unrep chip boxes classes scores _ _ _ Hrun)
      as (dets & -> & Hlen & Hdets).
    split; [simpl; by rewrite Hlen|].
    intros i Hi. destruct (lookup_lt_is_Some_2 scores i Hi) as [score Hscore].
    destruct (Hdets i score Hscore) as (class & box & bounds & Hc & Hb & Ht & _).
    split; [by exists class|]. exists box. split; [done|].
    pose proof (transformBox_first_four unrep (Detector.X chip) (Detector.Y chip) box) as Hb4.
    rewrite Ht in Hb4. by destruct Hb4.
  - by destruct (detections_panic unrep chip boxes classes scores _ _ _ Hrun)
      as (-> & k & Hk & Hbad); split; [|exists k].
Qed.

(** ** The arg-max on arbitrary vectors *)

Lemma f32_gt_not_nan (a b : float32) :
  F32.gtb a b = true -> F32.is_nan a = false /\ F32.is_nan b = false.
Proof.
  unfold F32.gtb, SFltb.
  destruct a as [[]|[]| |[] ma ea], b as [[]|[]| |[] mb eb]; simpl; try done.
Qed.

Lemma bestIndex_loop (probabilities l : list float32) :
  forall (pre : list float32) (b : nat),
    probabilities = pre ++ l ->
    (b <= length pre)%nat -> (b < length probabilities \/ probabilities = [])%nat ->
    (forall p, b <> 0%nat -> probabilities !! b = Some p -> F32.is_nan p = false) ->
    (forall p0, probabilities !! 0%nat = Some p0 -> F32.is_nan p0 = true -> b = 0%nat) ->
    exists b',
      foldRange (fun i p bestIdx =>
                   best ← index probabilities bestIdx;
                   mret (if F32.gtb p best then i else bestIdx))
                (length pre) l b = Ok b' /\
      (b' < length probabilities \/ probabilities = [])%nat /\
      (forall p, b' <> 0%nat -> probabilities !! b' = Some p -> F32.is_nan p = false) /\
      (forall p0, probabilities !! 0%nat = Some p0 -> F32.is_nan p0 = true -> b' = 0%nat).
Proof.
  induction l as [|p l IH]; intros pre b Heq Hle Hlt Hnan Hfirst.
  - exists b. done.
  - cbn [foldRange].
    assert (Hp : probabilities !! length pre = Some p)
      by (rewrite Heq; by rewrite list_lookup_middle).
    assert (Hlen : (length pre < length probabilities)%nat)
      by (by apply lookup_lt_Some in Hp).
    destruct (lookup_lt_is_Some_2 probabilities b ltac:(lia)) as [best Hbest].
    apply index_Ok in Hbest as Hidx. rewrite Hidx.
    cbn [mbind outcome_bind mret outcome_ret].
    destruct (IH (pre ++ [p]) (if F32.gtb p best then length pre else b))
      as (b' & Hrun & Hres).
    + by rewrite <- app_assoc.
    + rewrite length_app. simpl. destruct (F32.gtb p best); lia.
    + left. destruct (F32.gtb p best); lia.
    + intros q Hne Hq. destruct (F32.gtb p best) eqn:Hgt; [|by eapply Hnan].
      rewrite Hp in Hq. injection Hq as <-. by apply f32_gt_not_nan in Hgt as [? ?].
    + intros p0 Hp0 Hn0. destruct (F32.gtb p best) eqn:Hgt; [|by eapply Hfirst].
      apply f32_gt_not_nan in Hgt as [_ Hbn].
      pose proof (Hfirst p0 Hp0 Hn0) as ->. congruence.
    + exists b'. split; [|done].
      rewrite length_app in Hrun. simpl in Hrun. by rewrite Nat.add_1_r in Hrun.
Qed.

Lemma bestIndex_in_range (probabilities : list float32) :
  exists b : nat,
    Classifier.bestIndex probabilities = Ok b /\
    (probabilities = [] -> b = 0%nat) /\
    (probabilities <> [] -> (b < length probabilities)%nat) /\
    (forall p, b <> 0%nat -> probabilities !! b = Some p -> F32.is_nan p = false) /\
    (forall p0, probabilities !! 0%nat = Some p0 -> F32.is_nan p0 = true ->
                b = 0%nat).
Proof.
  destruct (bestIndex_loop probabilities probabilities [] 0%nat)
    as (b & Hrun & Hlt & Hnan & Hfirst).
  - done.
  - simpl. lia.
  - destruct probabilities; [by right|left; simpl; lia].
  - done.
  - done.
  - exists b. split; [exact Hrun|]. split; [|split; [|done]].
    + intros ->. by vm_compute in Hrun; injection Hrun.
    + intros Hne. by destruct Hlt.
Qed.

(** X3: the arg-max loop returns an index on every vector, NaNs included:
    0 on the empty one, an index inside the vector otherwise.  Comparisons
    with a NaN being false, a NaN is never chosen beyond position 0, and a
    NaN at position 0 is never replaced. *)
Theorem bestIndex_total (probabilities : list float32) :
  exists b : nat,
    Classifier.bestIndex probabilities = Ok b /\
    (probabilities = [] -> b = 0%nat) /\
    (probabilities <> [] -> (b < length probabilities)%nat) /\
    (forall p, b <> 0%nat -> probabilities !! b = Some p -> F32.is_nan p = false) /\
    (forall p0, probabilities !! 0%nat = Some p0 -> F32.is_nan p0 = true ->
                b = 0%nat).
Proof. apply bestIndex_in_range. Qed.

(** ** The label table as a whole *)

Lemma Split_two (s : string) (sep : ascii) :
  Strings.Contains s sep = true ->
  exists a b rest, Strings.Split s sep = a :: b :: rest.
Proof.
  induction s as [|c s IH]; [done|]. simpl.
  destruct (Ascii.eqb c sep) eqn:Hc.
  - intros _. destruct (Strings.Split s sep) as [|b rest] eqn:Hs.
    + by apply Split_nonempty in Hs.
    + by exists EmptyString, b, rest.
  - simpl. intros Hs. destruct (IH Hs) as (a & b & rest & ->).
    by exists (String c a), b, rest.
Qed.

Lemma labelRow_has_colon (line : string) (labels : gmap Z string) :
  Detector.labelRow line labels =
  if Row.has_colon line
  then Ok (<[Row.id line := Row.description line]> labels)
  else Panicked IndexOutOfRange.
Proof.
  rewrite labelRow_cases. unfold Row.has_colon, Row.id, Row.description.
  destruct (Strings.Contains line ":") eqn:Hc.
  - by destruct (Split_two _ _ Hc) as (a & b & rest & ->).
  - by rewrite (Split_none _ _ Hc).
Qed.

Lemma labelRows_snoc (lines : list string) (line : string) (labels : gmap Z string) :
  Detector.labelRows (lines ++ [line]) labels =
  (labels' ← Detector.labelRows lines labels; Detector.labelRow line labels').
Proof.
  rewrite labelRows_app.
  destruct (Detector.labelRows lines labels) as [m|p]; cbn [mbind outcome_bind]; [|done].
  rewrite labelRows_cons. by destruct (Detector.labelRow line m).
Qed.

(** X4: the label table is built unless a line has no colon, in which case
    the parse panics on the index.  In the table an id maps to the
    description of the last row entered under it, and an id no row is
    entered under is absent. *)
Theorem label_table (content : string) :
  match Detector.parseLabels content with
  | Ok table =>
      Forall (fun line => Row.has_colon line = true) (fst (Bufio.ScanLines content)) /\
      forall k d,
        table !! k = Some d <->
        exists (i : nat) line,
          fst (Bufio.ScanLines content) !! i = Some line /\
          Row.id line = k /\ Row.description line = d /\
          forall (j : nat) line',
            (i < j)%nat -> fst (Bufio.ScanLines content) !! j = Some line' ->
            Row.id line' <> k
  | Panicked p =>
      p = IndexOutOfRange /\
      exists line, line ∈ fst (Bufio.ScanLines content) /\ Row.has_colon line = false
  end.
Proof.
  unfold Detector.parseLabels.
  induction (fst (Bufio.ScanLines content)) as [|line lines IH] using rev_ind.
  - cbn. split; [done|]. intros k d. rewrite lookup_empty. split; [done|].
    intros (i & line & Hi & _). by rewrite lookup_nil in Hi.
  - rewrite labelRows_snoc.
    destruct (Detector.labelRows lines ∅) as [table|p]; cbn [mbind outcome_bind].
    + destruct IH as [Hall Htable]. rewrite labelRow_has_colon.
      destruct (Row.has_colon line) eqn:Hcolon.
      * split; [apply Forall_app; split; [done|by constructor]|].
        intros k d. destruct (decide (k = Row.id line)) as [->|Hne].
        -- rewrite lookup_insert_eq. split.
           ++ intros [= <-]. exists (length lines), line.
              split; [by rewrite list_lookup_middle|]. split; [done|]. split; [done|].
              intros j line' Hj Hline'. apply lookup_lt_Some in Hline'.
              rewrite length_app in Hline'. simpl in Hline'. lia.
           ++ intros (i & line0 & Hi & Hid & Hd & Hlast).
              destruct (decide (i = length lines)) as [->|Hi'].
              ** rewrite list_lookup_middle in Hi by done. congruence.
              ** exfalso. apply (Hlast (length lines) line); [|by rewrite list_lookup_middle|done].
                 apply lookup_lt_Some in Hi. rewrite length_app in Hi. simpl in Hi. lia.
        -- rewrite lookup_insert_ne by done. rewrite Htable. split.
           ++ intros (i & line0 & Hi & Hid & Hd & Hlast).
              exists i, line0. split; [by apply lookup_app_l_Some|].
              split; [done|]. split; [done|].
              intros j line' Hj Hline'.
              destruct (decide (j = length lines)) as [->|Hj'].
              ** rewrite list_lookup_middle in Hline' by done. congruence.
              ** apply (Hlast j line' Hj). rewrite lookup_app_l in Hline'; [done|].
                 apply lookup_lt_Some in Hline'. rewrite length_app in Hline'.
                 simpl in Hline'. lia.
           ++ intros (i & line0 & Hi & Hid & Hd & Hlast).
              destruct (decide (i = length lines)) as [->|Hi'].
              ** rewrite list_lookup_middle in Hi by done. congruence.
              ** assert (Hlt : (i < length lines)%nat).
                 { apply lookup_lt_Some in Hi. rewrite length_app in Hi. simpl in Hi. lia. }
                 exists i, line0. rewrite lookup_app_l in Hi by done.
                 split; [done|]. split; [done|]. split; [done|].
                 intros j line' Hj Hline'. apply (Hlast j line' Hj).
                 by apply lookup_app_l_Some.
      * split; [done|]. exists line. split; [|done].
        apply elem_of_app. right. by apply list_elem_of_singleton.
    + destruct IH as (-> & bad & Hbad & Hno). split; [done|].
      exists bad. split; [|done]. apply elem_of_app. by left.
Qed.

Lemma labelRows_outcome (lines : list string) :
  forall labels : gmap Z string,
    match Detector.labelRows lines labels with
    | Ok _ => forallb Row.has_colon lines = true
    | Panicked p => p = IndexOutOfRange /\ forallb Row.has_colon lines = false
    end.
Proof.
  induction lines as [|line lines IH]; intros labels; [done|].
  rewrite labelRows_cons, labelRow_has_colon. cbn [forallb].
  destruct (Row.has_colon line); cbn [mbind outcome_bind andb]; [apply IH|done].
Qed.

(** ** What the two printing functions do in every case *)

Section Printing.

Context {Tensor : Type}.
Variable world : World Tensor.

(** X5: [printDetections] prints one line per record, in order, after
    opening the label file, and the lines do not depend on what the file
    says.  The file is needed all the same: if it cannot be opened the
    program exits with status 1, and if one of its lines has no colon it
    panics, in both cases before a single line is printed. *)
Theorem printDetections_output (detects : list Detector.Detect) (labelsFile : path) :
  Detector.printDetections world detects labelsFile =
  match readFile world labelsFile with
  | None => MkProg [OpenFile labelsFile; LogFatal] (Exited 1)
  | Some content =>
      if forallb Row.has_colon (fst (Bufio.ScanLines content))
      then MkProg (OpenFile labelsFile :: (Detector.detectLine <$> detects)) (Done tt)
      else MkProg [OpenFile labelsFile; Panic IndexOutOfRange] (Exited 2)
  end.
Proof.
  unfold Detector.printDetections.
  destruct (readFile world labelsFile) as [content|]; [|done].
  rewrite orFatal_Some_bind. cbv beta. unfold Detector.parseLabels.
  pose proof (labelRows_outcome (fst (Bufio.ScanLines content)) ∅) as Hrows.
  destruct (Detector.labelRows _ ∅) as [table|p].
  - rewrite Hrows, lift_Ok_bind, print_loop. done.
  - destruct Hrows as [-> ->]. done.
Qed.

(** X6: [printBestLabel] prints its one line exactly when the label file
    can be opened, the vector is not empty and the file has a line at the
    chosen index.  An unreadable file ends the program with status 1; an
    empty vector or a short label file ends it with a panic on the index,
    after the file has been read and nothing printed. *)
Theorem printBestLabel_output (probabilities : list float32) (labelsFile : path) :
  exists b : nat,
    Classifier.bestIndex probabilities = Ok b /\
    (probabilities !! b = None <-> probabilities = []) /\
    Classifier.printBestLabel world probabilities labelsFile =
    match readFile world labelsFile with
    | None => MkProg [OpenFile labelsFile; LogFatal] (Exited 1)
    | Some content =>
        match probabilities !! b, fst (Bufio.ScanLines content) !! b with
        | Some p, Some label =>
            MkProg (OpenFile labelsFile
                      :: (if snd (Bufio.ScanLines content) then [LogPrintf] else [])
                      ++ [Printf "BEST MATCH: (%2.0f%% likely) %s
" [VFloat32 (F32.mul p (F32.of_int 100)); VString label]])
                   (Done tt)
        | _, _ =>
            MkProg (OpenFile labelsFile
                      :: (if snd (Bufio.ScanLines content) then [LogPrintf] else [])
                      ++ [Panic IndexOutOfRange])
                   (Exited 2)
        end
    end.
Proof.
  destruct (bestIndex_in_range probabilities) as (b & Hbest & Hnil & Hlt & _).
  exists b. split; [done|]. split.
  - split.
    + intros Hnone. destruct probabilities as [|p ps]; [done|].
      apply lookup_ge_None in Hnone. specialize (Hlt ltac:(done)). lia.
    + intros ->. by rewrite lookup_nil.
  - unfold Classifier.printBestLabel. rewrite Hbest, lift_Ok_bind.
    destruct (readFile world labelsFile) as [content|]; [|done].
    rewrite orFatal_Some_bind. cbv beta.
    destruct (Bufio.ScanLines content) as [labels err]. cbn [fst snd].
    unfold index.
    destruct (probabilities !! b) as [p|], (labels !! b) as [label|], err; done.
Qed.

End Printing.

(** ** The order of a detector run *)

Lemma Done_eta (p : Prog unit) : res p = Done tt -> p = MkProg (trace p) (Done tt).
Proof. destruct p as [t r]. simpl. by intros ->. Qed.

Lemma Exited_eta {A : Type} (p : Prog A) (c : Z) :
  res p = Exited c -> p = MkProg (trace p) (Exited c).
Proof. destruct p as [t r]. simpl. by intros ->. Qed.

(** A loop whose bodies all return: the traces of the bodies, in order. *)
Lemma forRange_all_done {A : Type} (f : nat -> A -> Prog unit) (l : list A) :
  forall i : nat,
    (forall (k : nat) a, l !! k = Some a -> res (f (i + k)%nat a) = Done tt) ->
    forRange (fun i a _ => f i a) i l tt =
    MkProg (concat (imap (fun k a => trace (f (i + k)%nat a)) l)) (Done tt).
Proof.
  induction l as [|a l IH]; intros i Hall; [done|].
  cbn [forRange imap concat].
  pose proof (Hall 0%nat a eq_refl) as Ha. rewrite Nat.add_0_r in *.
  rewrite (Done_eta _ Ha), Done_bind. rewrite IH.
  - cbn [trace res].
    assert (imap (fun k a => trace (f (S i + k)%nat a)) l =
            imap ((fun k a => trace (f (i + k)%nat a)) ∘ S) l) as ->; [|done].
    apply imap_ext. intros k b _. simpl. do 2 f_equal. lia.
  - intros k b Hk. replace (S i + k)%nat with (i + S k)%nat by lia. by apply Hall.
Qed.

(** A loop whose body exits at element [a]: the traces up to and including
    that body, and its exit status; the elements after [a] are not visited. *)
Lemma forRange_first_exit {A : Type} (f : nat -> A -> Prog unit)
    (l1 l2 : list A) (a : A) (c : Z) :
  forall i : nat,
    (forall (k : nat) b, l1 !! k = Some b -> res (f (i + k)%nat b) = Done tt) ->
    res (f (i + length l1)%nat a) = Exited c ->
    forRange (fun i a _ => f i a) i (l1 ++ a :: l2) tt =
    MkProg (concat (imap (fun k b => trace (f (i + k)%nat b)) l1)
              ++ trace (f (i + length l1)%nat a))
           (Exited c).
Proof.
  induction l1 as [|b l1 IH]; intros i Hall Hexit.
  - cbn [forRange imap concat app length] in *. rewrite Nat.add_0_r in *.
    rewrite (Exited_eta _ _ Hexit). done.
  - cbn [forRange imap concat app].
    pose proof (Hall 0%nat b eq_refl) as Hb. rewrite Nat.add_0_r in Hb.
    rewrite (Done_eta _ Hb), Done_bind. rewrite (IH (S i)).
    + cbn [trace res]. rewrite Nat.add_0_r, <- app_assoc.
      assert (imap (fun k b => trace (f (S i + k)%nat b)) l1 =
              imap ((fun k b => trace (f (i + k)%nat b)) ∘ S) l1) as ->.
      { apply imap_ext. intros k b' _. simpl. do 2 f_equal. lia. }
      by replace (S i + length l1)%nat with (i + length (b :: l1))%nat
        by (simpl; lia).
    + intros k b' Hk. replace (S i + k)%nat with (i + S k)%nat by lia. by apply Hall.
    + simpl in Hexit. by replace (S i + length l1)%nat with (i + S (length l1))%nat by lia.
Qed.

Section RunOrder.

Context {Tensor : Type}.
Variable world : World Tensor.
Variable unrep : float32 -> Z.

(** X8: once the model, the session and the image are there, a detector
    run is the tiling (every chip file written) followed by the chips'
    inferences in the order of the chips, each with its own printed lines.
    If every chip is processed to the end the program returns; if chip [k]
    is the first to fail, the run ends with that chip's events and exit
    status, the lines of the chips before it stay printed and no later chip
    is touched. *)
Theorem detector_run_order modeldir imagefile model file im tiling chips :
  modeldir <> EmptyString -> imagefile <> EmptyString ->
  readFile world (Joined modeldir "multires.pb") = Some model ->
  graphImport world model = true ->
  newSession world = true ->
  readFile world (Named imagefile) = Some file ->
  jpegDecode world file = Some im ->
  Detector.tile im = MkProg tiling (Done chips) ->
  let block := fun (k : nat) chip =>
    Detector.inferChip unrep world (Joined modeldir "labels.txt") k chip in
  let load := [ReadFile (Joined modeldir "multires.pb"); ImportGraph; NewSession;
               OpenFile (Named imagefile); DecodeJpeg] in
  ((forall (k : nat) chip, chips !! k = Some chip -> res (block k chip) = Done tt) ->
   Detector.main unrep world modeldir imagefile =
   MkProg (load ++ tiling ++ concat (imap (fun k chip => trace (block k chip)) chips))
          (Done tt)) /\
  (forall (k : nat) chip c,
     chips !! k = Some chip ->
     (forall (j : nat) chip',
        (j < k)%nat -> chips !! j = Some chip' -> res (block j chip') = Done tt) ->
     res (block k chip) = Exited c ->
     Detector.main unrep world modeldir imagefile =
     MkProg (load ++ tiling
               ++ concat (imap (fun j chip' => trace (block j chip')) (take k chips))
               ++ trace (block k chip))
            (Exited c)).
Proof.
  intros Hdir Himg Hmodel Himport Hsession Hfile Hdecode Htile block load.
  assert (Hmain : Detector.main unrep world modeldir imagefile =
                  MkProg (load ++ tiling
                            ++ trace (forRange (fun i chip _ => block i chip)
                                        0%nat chips tt))
                         (res (forRange (fun i chip _ => block i chip)
                                 0%nat chips tt))).
  { unfold Detector.main, modelFiles.
    apply String.eqb_neq in Hdir, Himg. rewrite Hdir, Himg.
    cbn [orb]. cbv beta iota.
    change (Joined modeldir ("multires" +:+ ".pb"))
      with (Joined modeldir "multires.pb").
    rewrite Hmodel, orFatal_Some_bind. cbv beta.
    rewrite Himport, orFatal_Some_bind. cbv beta.
    rewrite Hsession, orFatal_Some_bind. cbv beta.
    rewrite Hfile, orFatal_Some_bind. cbv beta.
    rewrite Hdecode, orFatal_Some_bind. cbv beta.
    rewrite Htile, Done_bind. reflexivity. }
  rewrite Hmain. split.
  - intros Hall.
    rewrite (forRange_all_done block chips 0%nat) by (intros k chip; apply Hall).
    reflexivity.
  - intros k chip c Hk Hbefore Hexit.
    pose proof (lookup_lt_Some _ _ _ Hk) as Hlt.
    rewrite <- (take_drop_middle chips k chip Hk) at 1 2.
    assert (Hlen : length (take k chips) = k) by (rewrite length_take; lia).
    rewrite (forRange_first_exit block (take k chips) (drop (S k) chips) chip c 0%nat).
    + cbn [trace res]. rewrite Hlen. reflexivity.
    + intros j chip' Hj. apply lookup_take_Some in Hj as [Hj Hjk].
      by apply Hbefore.
    + by rewrite Hlen.
Qed.

End RunOrder.

(** ** The tiling as a partition, and the chip files *)

Lemma length_append (a b : string) :
  String.length (a +:+ b) = (String.length a + String.length b)%nat.
Proof. induction a as [|c a IH]; [done|]. rewrite append_cons. simpl. by rewrite IH. Qed.

Lemma append_inj_r (a b s : string) : a +:+ s = b +:+ s -> a = b.
Proof.
  revert b. induction a as [|c a IH]; intros [|d b] Heq.
  - done.
  - apply (f_equal String.length) in Heq.
    rewrite append_nil, append_cons in Heq. simpl in Heq.
    rewrite length_append in Heq. lia.
  - apply (f_equal String.length) in Heq.
    rewrite append_nil, append_cons in Heq. simpl in Heq.
    rewrite length_append in Heq. lia.
  - rewrite !append_cons in Heq. injection Heq as -> Heq. f_equal. by apply IH.
Qed.

Lemma chipPath_inj (i j : Z) : Detector.chipPath i = Detector.chipPath j -> i = j.
Proof.
  unfold Detector.chipPath. intros [= Heq].
  change (pretty i +:+ ".png" = pretty j +:+ ".png") in Heq.
  apply append_inj_r in Heq. by apply (inj pretty) in Heq.
Qed.

Section Tiling.

Variables Wi Hi : Z.
Hypothesis HWi : 0 <= Wi < 2 ^ 31.
Hypothesis HHi : 0 <= Hi < 2 ^ 31.

Let wn : Z := Wi / Detector.W.
Let hn : Z := Hi / Detector.H.

(** The whole tiling of a decoded image: its file writes and its chips. *)
Lemma tile_run :
  exists chips,
    Detector.tile (Image.decoded Wi Hi) =
    MkProg ((fun i => WritePng (Detector.chipPath i)
                        (default Image.ZR (Detector.Im (Spec.chip wn i))))
              <$> seqZ 0 (wn * hn))
           (Done chips) /\
    forall (j : nat) c,
      chips !! j = Some c <->
      Z.of_nat j < wn * hn /\ c = Spec.chip wn (Z.of_nat j).
Proof.
  pose proof (grid_bounds Wi Hi HWi HHi) as (Hwn & Hhn & _).
  pose proof (grid_quo Wi Hi HWi HHi) as [Hqw Hqh]. fold wn hn in Hwn, Hhn, Hqw, Hqh.
  assert (Hmul : GoInt.mul wn hn = wn * hn)
    by (apply wrap_id, in_range_small; nia).
  unfold Detector.tile. rewrite Hqw, Hqh, !lift_Ok_bind, Hmul.
  unfold make. destruct (Z.ltb_spec (wn * hn) 0) as [|_]; [nia|].
  rewrite lift_Ok_bind.
  destruct (tile_loop Wi Hi HWi HHi (Z.to_nat (wn * hn)) 0%nat 0
              (replicate (Z.to_nat (wn * hn)) Detector.zeroChip))
    as (chips & Hrun & Hlen & Hlook); [lia|fold wn hn; lia|by rewrite length_replicate|].
  fold wn hn in Hrun, Hlook. rewrite Z2Nat.id in Hrun by nia.
  exists chips. split; [exact Hrun|].
  intros j c. rewrite Hlook.
  repeat case_bool_decide; try lia; split; try done; try (intros [? ?]; lia).
  - intros [= <-]. done.
  - intros [_ ->]. done.
Qed.

(** X9: the chips partition the covered part of the image: every pixel
    left of [wn*W] and above [hn*H] lies in one chip and in no other.  The
    strips dropped at the right and at the bottom are narrower than a
    chip. *)
Theorem tiler_partition :
  exists chips,
    res (Detector.tile (Image.decoded Wi Hi)) = Done chips /\
    0 <= Wi - wn * Detector.W < Detector.W /\
    0 <= Hi - hn * Detector.H < Detector.H /\
    forall p,
      0 <= Image.X p < wn * Detector.W -> 0 <= Image.Y p < hn * Detector.H ->
      exists (i : nat) c r,
        chips !! i = Some c /\ Detector.Im c = Some r /\ Image.In p r = true /\
        forall (j : nat) d s,
          chips !! j = Some d -> Detector.Im d = Some s -> Image.In p s = true ->
          j = i.
Proof.
  destruct tile_run as (chips & Hrun & Hchips).
  pose proof (grid_bounds Wi Hi HWi HHi) as (Hwn & Hhn & HW & HH).
  fold wn hn in Hwn, Hhn, HW, HH.
  exists chips. rewrite Hrun. split; [done|].
  unfold Detector.W, Detector.H. split; [lia|]. split; [lia|].
  intros p Hx Hy.
  destruct (chip_cover Wi Hi HWi HHi p Hx Hy) as (i & r & Hi' & Hr & Hin).
  fold wn hn in Hi', Hr.
  exists (Z.to_nat i), (Spec.chip wn i), r.
  split; [apply Hchips; rewrite Z2Nat.id by lia; split; [lia|done]|].
  split; [done|]. split; [done|].
  intros j d s Hd Hs Hins. apply Hchips in Hd as [Hj ->].
  destruct (decide (Z.of_nat j = i)) as [<-|Hne]; [lia|]. exfalso.
  destruct (chip_disjoint Wi Hi HWi HHi i (Z.of_nat j) r s) as [_ Hdis];
    try done; try (fold wn hn; lia).
  by rewrite (Hdis p Hin) in Hins.
Qed.

(** X10: the tiler writes one PNG file per chip, in the order of the chips,
    each holding the chip's rectangle, under the name [/tmp/chip-<i>.png];
    two chips never share a name, and the inference of chip [k] starts from
    the file written for chip [k]. *)
Theorem chip_files :
  trace (Detector.tile (Image.decoded Wi Hi)) =
  (fun i => WritePng (Detector.chipPath i)
              {| Image.Min := {| Image.X := (i mod wn) * Detector.W;
                                 Image.Y := (i / wn) * Detector.H |};
                 Image.Max := {| Image.X := (i mod wn + 1) * Detector.W;
                                 Image.Y := (i / wn + 1) * Detector.H |} |})
    <$> seqZ 0 (wn * hn) /\
  (forall i j, Detector.chipPath i = Detector.chipPath j -> i = j) /\
  forall (Tensor : Type) (world : World Tensor) unrep labelsfile (k : nat) chip,
    exists rest,
      trace (Detector.inferChip unrep world labelsfile k chip) =
      MakeTensor (Detector.chipPath (Z.of_nat k)) :: rest.
Proof.
  destruct tile_run as (chips & Hrun & _). rewrite Hrun.
  split; [done|]. split; [apply chipPath_inj|].
  intros Tensor world unrep labelsfile k chip. unfold Detector.inferChip.
  destruct (makeTensorFromImage world _) as [tensor|];
    [rewrite orFatal_Some_bind|rewrite orFatal_None_bind]; by eexists.
Qed.

End Tiling.

(** ** Normalized boxes stay inside their chip *)

Lemma digits2_pos_lower (p : positive) : 2 ^ (Z.pos (digits2_pos p) - 1) <= Z.pos p.
Proof.
  induction p as [p IH|p IH|]; simpl digits2_pos; [| |done].
  - rewrite Pos2Z.inj_succ. replace (Z.succ (Z.pos (digits2_pos p)) - 1)
      with (Z.succ (Z.pos (digits2_pos p) - 1)) by lia.
    rewrite Z.pow_succ_r by lia. lia.
  - rewrite Pos2Z.inj_succ. replace (Z.succ (Z.pos (digits2_pos p)) - 1)
      with (Z.succ (Z.pos (digits2_pos p) - 1)) by lia.
    rewrite Z.pow_succ_r by lia. lia.
Qed.

Lemma digits2_pos_upper (p : positive) : Z.pos p < 2 ^ Z.pos (digits2_pos p).
Proof.
  induction p as [p IH|p IH|]; simpl digits2_pos; [| |done].
  - rewrite Pos2Z.inj_succ, Z.pow_succ_r by lia. lia.
  - rewrite Pos2Z.inj_succ, Z.pow_succ_r by lia. lia.
Qed.

Lemma shr_1_m mrs : 0 <= shr_m mrs -> shr_m (shr_1 mrs) = shr_m mrs / 2.
Proof.
  destruct mrs as [m r s]. simpl. intros Hm.
  destruct m as [|[p|p|]|p]; try lia; simpl shr_m.
  - done.
  - rewrite Pos2Z.inj_xI. apply Z.div_unique with 1; lia.
  - rewrite Pos2Z.inj_xO. apply Z.div_unique with 0; lia.
  - done.
Qed.

Lemma iter_shr_1_m (p : positive) :
  forall mrs, 0 <= shr_m mrs ->
    shr_m (SpecFloat.iter_pos shr_1 p mrs) = shr_m mrs / 2 ^ Z.pos p.
Proof.
  induction p as [p IH|p IH|]; intros mrs Hm; simpl SpecFloat.iter_pos.
  - assert (H1 : 0 <= shr_m (shr_1 mrs)) by (rewrite shr_1_m by done; apply Z.div_pos; lia).
    assert (H2 : 0 <= shr_m (SpecFloat.iter_pos shr_1 p (shr_1 mrs)))
      by (rewrite IH by done; apply Z.div_pos; [done|apply Z.pow_pos_nonneg; lia]).
    rewrite IH, IH, shr_1_m by done.
    rewrite !Z.div_div by (try apply Z.pow_pos_nonneg; lia).
    f_equal. replace (Z.pos p~1) with (Z.pos p + Z.pos p + 1) by lia.
    rewrite !Z.pow_add_r by lia. ring.
  - assert (H2 : 0 <= shr_m (SpecFloat.iter_pos shr_1 p mrs))
      by (rewrite IH by done; apply Z.div_pos; [done|apply Z.pow_pos_nonneg; lia]).
    rewrite IH, IH by done.
    rewrite !Z.div_div by (try apply Z.pow_pos_nonneg; lia).
    f_equal. replace (Z.pos p~0) with (Z.pos p + Z.pos p) by lia.
    rewrite !Z.pow_add_r by lia. ring.
  - rewrite shr_1_m by done. by rewrite Z.pow_1_r.
Qed.

Lemma shr_fexp_exact (m e : Z) :
  0 <= m ->
  exists N mrs,
    shr_fexp 24 128 m e loc_Exact = (mrs, e + N) /\
    0 <= N /\ shr_m mrs = m / 2 ^ N /\
    e + N = Z.max e (fexp 24 128 (Zdigits2 m + e)) /\
    (N = 0 -> loc_of_shr_record mrs = loc_Exact).
Proof.
  intros Hm. unfold shr_fexp, shr. simpl shr_record_of_loc.
  destruct (fexp 24 128 (Zdigits2 m + e) - e) as [|p|p] eqn:Hn.
  - exists 0, {| shr_m := m; shr_r := false; shr_s := false |}.
    rewrite Z.add_0_r, Z.pow_0_r, Z.div_1_r. repeat split; try done; lia.
  - exists (Z.pos p), (SpecFloat.iter_pos shr_1 p {| shr_m := m; shr_r := false; shr_s := false |}).
    split; [done|]. split; [lia|]. split; [by rewrite iter_shr_1_m|].
    split; [lia|lia].
  - exists 0, {| shr_m := m; shr_r := false; shr_s := false |}.
    rewrite Z.add_0_r, Z.pow_0_r, Z.div_1_r. repeat split; try done; lia.
Qed.

Lemma rne_bound (m : Z) (l : location) :
  m <= round_nearest_even m l <= m + 1 /\ (l = loc_Exact -> round_nearest_even m l = m).
Proof.
  unfold round_nearest_even. destruct l as [|[]]; try destruct (Z.even m); split; try done; lia.
Qed.

Lemma digits_of_bound (m k : Z) : 0 <= k -> 0 <= m < 2 ^ k -> Zdigits2 m <= k.
Proof.
  intros Hk [Hm Hlt]. destruct m as [|p|p]; simpl; [lia| |lia].
  pose proof (digits2_pos_lower p) as Hlow.
  assert (2 ^ (Z.pos (digits2_pos p) - 1) < 2 ^ k) as Hpow by lia.
  apply Z.pow_lt_mono_r_iff in Hpow; lia.
Qed.

Lemma fexp_small (x : Z) : x <= 9 -> fexp 24 128 x <= -15.
Proof. unfold fexp, emin. lia. Qed.

Lemma round_aux_trunc (mx : positive) (ex : Z) :
  ex <= -15 -> Z.pos mx <= 300 * 2 ^ (- ex) ->
  exists t, F32.trunc (binary_round_aux 24 128 false (Z.pos mx) ex loc_Exact) = Some t /\
            0 <= t <= 300.
Proof.
  intros Hex Hmx. unfold binary_round_aux.
  destruct (shr_fexp_exact (Z.pos mx) ex ltac:(lia)) as (N & mrs' & -> & HN & Hm0 & He' & Hexact).
  set (e' := ex + N) in *.
  pose proof (rne_bound (shr_m mrs') (loc_of_shr_record mrs')) as [Hm1 Hm1e].
  set (m1 := round_nearest_even (shr_m mrs') (loc_of_shr_record mrs')) in *.
  assert (Hpex : 0 < 2 ^ (- ex)) by (apply Z.pow_pos_nonneg; lia).
  assert (Hd : Zdigits2 (Z.pos mx) + ex <= 9).
  { pose proof (digits_of_bound (Z.pos mx) (9 - ex) ltac:(lia)) as Hdig.
    assert (Z.pos mx < 2 ^ (9 - ex)); [|lia].
    replace (9 - ex) with (9 + - ex) by lia. rewrite Z.pow_add_r by lia.
    change (2 ^ 9) with 512. lia. }
  assert (He'15 : e' <= -15) by (pose proof (fexp_small _ Hd); lia).
  assert (Hpe' : 0 < 2 ^ (- e')) by (apply Z.pow_pos_nonneg; lia).
  assert (HpN : 0 < 2 ^ N) by (apply Z.pow_pos_nonneg; lia).
  assert (Hsplit : 2 ^ (- ex) = 2 ^ (- e') * 2 ^ N).
  { rewrite <- Z.pow_add_r by lia. f_equal. lia. }
  assert (Hm0b : 0 <= shr_m mrs' <= 300 * 2 ^ (- e')).
  { rewrite Hm0. split; [apply Z.div_pos; lia|].
    apply Z.div_le_upper_bound; [lia|]. rewrite Hsplit in Hmx. lia. }
  assert (Hm1b : 0 <= m1 <= 300 * 2 ^ (- e') + 1) by lia.
  destruct (shr_fexp_exact m1 e' ltac:(lia)) as (N2 & mrs'' & -> & HN2 & Hm2 & He'' & _).
  set (e'' := e' + N2) in *.
  assert (Hd1 : Zdigits2 m1 + e' <= 9).
  { pose proof (digits_of_bound m1 (9 - e') ltac:(lia)) as Hdig.
    assert (m1 < 2 ^ (9 - e')); [|lia].
    replace (9 - e') with (9 + - e') by lia. rewrite Z.pow_add_r by lia.
    change (2 ^ 9) with 512. lia. }
  assert (He''15 : e'' <= -15) by (pose proof (fexp_small _ Hd1); lia).
  assert (Hpe'' : 0 < 2 ^ (- e'')) by (apply Z.pow_pos_nonneg; lia).
  assert (HpN2 : 0 < 2 ^ N2) by (apply Z.pow_pos_nonneg; lia).
  assert (Hsplit2 : 2 ^ (- e') = 2 ^ (- e'') * 2 ^ N2).
  { rewrite <- Z.pow_add_r by lia. f_equal. lia. }
  assert (Hbig : 2 <= 2 ^ (- e'')).
  { change 2 with (2 ^ 1) at 1. apply Z.pow_le_mono_r; lia. }
  assert (Hm2b : 0 <= shr_m mrs'' <= 300 * 2 ^ (- e'') + 1).
  { rewrite Hm2. split; [apply Z.div_pos; lia|].
    apply Z.div_le_upper_bound; [lia|]. rewrite Hsplit2 in Hm1b. nia. }
  destruct (shr_m mrs'') as [|m''|m''] eqn:Hres; [by exists 0| |lia].
  destruct (Z.leb_spec e'' (128 - 24)) as [_|]; [|lia].
  simpl F32.trunc. destruct (Z.leb_spec 0 e''); [lia|].
  eexists. split; [reflexivity|]. simpl cond_Zopp.
  split; [apply Z.div_pos; lia|].
  assert (Z.pos m'' / 2 ^ (- e'') < 301); [|lia].
  apply Z.div_lt_upper_bound; lia.
Qed.

Lemma of_int_1 : F32.of_int 1 = S754_finite false 8388608 (-23).
Proof. vm_compute. reflexivity. Qed.

Lemma of_int_300 : F32.of_int 300 = S754_finite false 9830400 (-15).
Proof. vm_compute. reflexivity. Qed.

Lemma valid_mantissa (s : bool) (m : positive) (e : Z) :
  valid_binary F32.prec F32.emax (S754_finite s m e) = true -> Z.pos m < 2 ^ 24.
Proof.
  unfold valid_binary, bounded, canonical_mantissa, F32.prec, F32.emax.
  intros Hvalid. apply andb_true_iff in Hvalid as [Hcanon _]. apply Z.eqb_eq in Hcanon.
  unfold fexp, emin in Hcanon.
  pose proof (digits2_pos_upper m) as Hup.
  assert (Z.pos (digits2_pos m) <= 24) as Hd by lia.
  apply (Z.pow_le_mono_r 2) in Hd; lia.
Qed.

Lemma pow23 : 2 ^ 23 = Z.pos 8388608.
Proof. vm_compute. reflexivity. Qed.

Lemma SFleb_finite (m m1 : positive) (e e1 : Z) :
  SFleb (S754_finite false m e) (S754_finite false m1 e1) = true ->
  e < e1 \/ (e = e1 /\ Z.pos m <= Z.pos m1).
Proof.
  unfold SFleb. cbn [SFcompare].
  destruct (Z.compare_spec e e1) as [->|Hlt|Hgt].
  - pose proof (Pos.compare_spec m m1) as Hc. unfold Pos.compare in Hc.
    destruct Hc as [Heq|Hlt|Hgt]; intros Hf; [| |discriminate Hf]; right; split; try done.
    + by rewrite Heq.
    + apply Z.lt_le_incl. exact (Pos2Z.pos_lt_pos _ _ Hlt).
  - intros _. by left.
  - intros Hf. discriminate Hf.
Qed.

Lemma le_one_bound (m : positive) (e : Z) :
  Z.pos m < 2 ^ 24 ->
  SFleb (S754_finite false m e) (S754_finite false 8388608 (-23)) = true ->
  e <= -23 /\ Z.pos m <= 2 ^ (- e).
Proof.
  intros Hm Hle. apply SFleb_finite in Hle as [Hlt|[-> Hle]].
  - split; [lia|].
    assert (2 ^ 24 <= 2 ^ (- e)) by (apply Z.pow_le_mono_r; lia). lia.
  - split; [lia|]. change (- -23) with 23. rewrite pow23. exact Hle.
Qed.

Lemma mul_finite_300 (m : positive) (e : Z) :
  F32.mul (S754_finite false m e) (S754_finite false 9830400 (-15)) =
  binary_round_aux 24 128 false (Z.pos (m * 9830400)) (e + -15) loc_Exact.
Proof. reflexivity. Qed.

(** The product of a normalized value with the chip size has an integer
    part between 0 and the chip size. *)
Lemma normalized_product (b : float32) :
  Box.normalized b ->
  exists t, F32.trunc (F32.mul b (F32.of_int 300)) = Some t /\ 0 <= t <= 300.
Proof.
  intros (Hvalid & Hlow & Hhigh). rewrite of_int_1 in Hhigh. rewrite of_int_300.
  destruct b as [s|[]| |s m e].
  - exists 0. destruct s; split; first [reflexivity | lia].
  - discriminate Hlow.
  - discriminate Hhigh.
  - discriminate Hlow.
  - destruct s; [discriminate Hlow|].
    pose proof (valid_mantissa _ _ _ Hvalid) as Hm.
    destruct (le_one_bound m e Hm Hhigh) as [He Hme].
    rewrite mul_finite_300.
    apply round_aux_trunc; [lia|].
    replace (- (e + -15)) with (15 + - e) by lia.
    rewrite Z.pow_add_r by lia. change (2 ^ 15) with 32768.
    rewrite Pos2Z.inj_mul. lia.
Qed.

Lemma transformBox_normalized unrep chipX chipY b0 b1 b2 b3 rest :
  Box.normalized b0 -> Box.normalized b1 ->
  Box.normalized b2 -> Box.normalized b3 ->
  0 <= chipX < 2 ^ 31 -> 0 <= chipY < 2 ^ 31 ->
  exists r,
    Detector.transformBox unrep chipX chipY (b0 :: b1 :: b2 :: b3 :: rest) = Ok r /\
    chipX * 300 <= Image.X (Image.Min r) <= (chipX + 1) * 300 /\
    chipX * 300 <= Image.X (Image.Max r) <= (chipX + 1) * 300 /\
    chipY * 300 <= Image.Y (Image.Min r) <= (chipY + 1) * 300 /\
    chipY * 300 <= Image.Y (Image.Max r) <= (chipY + 1) * 300.
Proof.
  intros H0 H1 H2 H3 HX HY.
  destruct (normalized_product b0 H0) as (t0 & Ht0 & Hr0).
  destruct (normalized_product b1 H1) as (t1 & Ht1 & Hr1).
  destruct (normalized_product b2 H2) as (t2 & Ht2 & Hr2).
  destruct (normalized_product b3 H3) as (t3 & Ht3 & Hr3).
  assert (Hfits : forall t c, 0 <= t <= 300 -> 0 <= c < 2 ^ 31 -> Spec.fits 300 t c).
  { intros t c Ht Hc. unfold Spec.fits. repeat split; apply in_range_small; lia. }
  eexists. rewrite transformBox_four. split; [reflexivity|].
  cbn [Image.X Image.Y Image.Min Image.Max].
  rewrite (fits_coord unrep 300 b0 chipX t0 Ht0), (fits_coord unrep 300 b1 chipY t1 Ht1),
    (fits_coord unrep 300 b2 chipX t2 Ht2), (fits_coord unrep 300 b3 chipY t3 Ht3)
    by (by apply Hfits).
  lia.
Qed.

(** X11: a box whose four values are normalized (between 0 and 1) is mapped
    inside the pixel rectangle of its chip, borders included: every
    coordinate lies between the chip's origin and the origin of the next
    chip. *)
Theorem normalized_box_inside unrep chipX chipY b0 b1 b2 b3 rest :
  Box.normalized b0 -> Box.normalized b1 ->
  Box.normalized b2 -> Box.normalized b3 ->
  0 <= chipX < 2 ^ 31 -> 0 <= chipY < 2 ^ 31 ->
  exists r,
    Detector.transformBox unrep chipX chipY (b0 :: b1 :: b2 :: b3 :: rest) = Ok r /\
    chipX * Detector.W <= Image.X (Image.Min r) <= (chipX + 1) * Detector.W /\
    chipX * Detector.W <= Image.X (Image.Max r) <= (chipX + 1) * Detector.W /\
    chipY * Detector.H <= Image.Y (Image.Min r) <= (chipY + 1) * Detector.H /\
    chipY * Detector.H <= Image.Y (Image.Max r) <= (chipY + 1) * Detector.H.
Proof. apply transformBox_normalized. Qed.

Lemma normalized_box_inside_witness :
  exists r,
    Detector.transformBox amd64_unrep 1 2
      [F32.zero; F32.div (F32.of_int 1) (F32.of_int 2);
       F32.of_int 1; F32.div (F32.of_int 1) (F32.of_int 4)] = Ok r /\
    1 * Detector.W <= Image.X (Image.Min r) <= (1 + 1) * Detector.W /\
    1 * Detector.W <= Image.X (Image.Max r) <= (1 + 1) * Detector.W /\
    2 * Detector.H <= Image.Y (Image.Min r) <= (2 + 1) * Detector.H /\
    2 * Detector.H <= Image.Y (Image.Max r) <= (2 + 1) * Detector.H.
Proof.
  apply (normalized_box_inside amd64_unrep 1 2
           F32.zero (F32.div (F32.of_int 1) (F32.of_int 2))
           (F32.of_int 1) (F32.div (F32.of_int 1) (F32.of_int 4)) []);
    try (repeat split; vm_compute; reflexivity); lia.
Defined.

Lemma tiler_partition_witness :
  exists chips (i : nat) c r,
    res (Detector.tile (Image.decoded 650 620)) = Done chips /\
    chips !! i = Some c /\ Detector.Im c = Some r /\
    Image.In {| Image.X := 450; Image.Y := 10 |} r = true.
Proof.
  destruct (tiler_partition 650 620) as (chips & Hres & _ & _ & Hpixel);
    [simpl; lia | simpl; lia |].
  destruct (Hpixel {| Image.X := 450; Image.Y := 10 |})
    as (i & c & r & Hc & Hr & Hin & _).
  - unfold Detector.W. change (650 `div` 300) with 2. simpl. lia.
  - unfold Detector.H. change (620 `div` 300) with 2. simpl. lia.
  - by exists chips, i, c, r.
Defined.

Lemma chip_files_witness :
  trace (Detector.tile (Image.decoded 650 620)) =
  [WritePng (Named "/tmp/chip-0.png")
     {| Image.Min := {| Image.X := 0; Image.Y := 0 |};
        Image.Max := {| Image.X := 300; Image.Y := 300 |} |};
   WritePng (Named "/tmp/chip-1.png")
     {| Image.Min := {| Image.X := 300; Image.Y := 0 |};
        Image.Max := {| Image.X := 600; Image.Y := 300 |} |};
   WritePng (Named "/tmp/chip-2.png")
     {| Image.Min := {| Image.X := 0; Image.Y := 300 |};
        Image.Max := {| Image.X := 300; Image.Y := 600 |} |};
   WritePng (Named "/tmp/chip-3.png")
     {| Image.Min := {| Image.X := 300; Image.Y := 300 |};
        Image.Max := {| Image.X := 600; Image.Y := 600 |} |}].
Proof.
  destruct (chip_files 650 620) as (Htrace & _); [simpl; lia | simpl; lia |].
  rewrite Htrace. vm_compute. reflexivity.
Defined.

Lemma detector_run_order_witness :
  Detector.main amd64_unrep (sampleWorld 650 620) "models" "cat.jpg" =
  MkProg ([ReadFile (Joined "models" "multires.pb"); ImportGraph; NewSession;
           OpenFile (Named "cat.jpg"); DecodeJpeg]
            ++ trace (Detector.tile (Image.decoded 650 620))
            ++ concat (imap (fun (k : nat) chip =>
                               trace (Detector.inferChip amd64_unrep
                                        (sampleWorld 650 620)
                                        (Joined "models" "labels.txt") k chip))
                            [Spec.chip 2 0; Spec.chip 2 1; Spec.chip 2 2; Spec.chip 2 3]))
         (Done tt) /\
  Detector.main amd64_unrep (flakyWorld 650 620) "models" "cat.jpg" =
  MkProg ([ReadFile (Joined "models" "multires.pb"); ImportGraph; NewSession;
           OpenFile (Named "cat.jpg"); DecodeJpeg]
            ++ trace (Detector.tile (Image.decoded 650 620))
            ++ concat (imap (fun (k : nat) chip =>
                               trace (Detector.inferChip amd64_unrep
                                        (flakyWorld 650 620)
                                        (Joined "models" "labels.txt") k chip))
                            [Spec.chip 2 0])
            ++ [MakeTensor (Named "/tmp/chip-1.png"); LogFatal])
         (Exited 1).
Proof.
  split.
  - destruct (detector_run_order (sampleWorld 650 620) amd64_unrep
                "models" "cat.jpg" "" "" (Image.decoded 650 620)
                (trace (Detector.tile (Image.decoded 650 620)))
                [Spec.chip 2 0; Spec.chip 2 1; Spec.chip 2 2; Spec.chip 2 3])
      as [Hall _];
      [discriminate | discriminate | reflexivity | reflexivity | reflexivity
      | reflexivity | reflexivity | vm_compute; reflexivity |].
    apply Hall. intros [|[|[|[|k]]]] chip Hk; try discriminate Hk;
        injection Hk as <-; vm_compute; reflexivity.
  - destruct (detector_run_order (flakyWorld 650 620) amd64_unrep
                "models" "cat.jpg" "" "" (Image.decoded 650 620)
                (trace (Detector.tile (Image.decoded 650 620)))
                [Spec.chip 2 0; Spec.chip 2 1; Spec.chip 2 2; Spec.chip 2 3])
      as [_ Hfail];
      [discriminate | discriminate | reflexivity | reflexivity | reflexivity
      | reflexivity | reflexivity | vm_compute; reflexivity |].
    apply (Hfail 1%nat (Spec.chip 2 1) 1).
    + reflexivity.
    + intros [|j] chip' Hj Hc; [|lia]. injection Hc as <-. vm_compute. reflexivity.
    + vm_compute. reflexivity.
Defined.

(** ** Detections and the source image *)

(** X12: every rectangle the detector derives from a normalized box on a
    chip of the tiling lies inside that chip's rectangle, and so inside the
    source image. *)
Theorem normalized_detection_in_image unrep Wi Hi b0 b1 b2 b3 rest :
  0 <= Wi < 2 ^ 31 -> 0 <= Hi < 2 ^ 31 ->
  Box.normalized b0 -> Box.normalized b1 ->
  Box.normalized b2 -> Box.normalized b3 ->
  exists chips,
    res (Detector.tile (Image.decoded Wi Hi)) = Done chips /\
    forall (i : nat) chip,
      chips !! i = Some chip ->
      exists r rc,
        Detector.transformBox unrep (Detector.X chip) (Detector.Y chip)
          (b0 :: b1 :: b2 :: b3 :: rest) = Ok r /\
        Detector.Im chip = Some rc /\
        Image.X (Image.Min rc) <= Image.X (Image.Min r) <= Image.X (Image.Max rc) /\
        Image.X (Image.Min rc) <= Image.X (Image.Max r) <= Image.X (Image.Max rc) /\
        Image.Y (Image.Min rc) <= Image.Y (Image.Min r) <= Image.Y (Image.Max rc) /\
        Image.Y (Image.Min rc) <= Image.Y (Image.Max r) <= Image.Y (Image.Max rc) /\
        0 <= Image.X (Image.Min rc) /\ Image.X (Image.Max rc) <= Wi /\
        0 <= Image.Y (Image.Min rc) /\ Image.Y (Image.Max rc) <= Hi.
Proof.
  intros HWi HHi H0 H1 H2 H3.
  destruct (tile_run Wi Hi HWi HHi) as (chips & Hrun & Hchips).
  pose proof (grid_bounds Wi Hi HWi HHi) as (Hwn & Hhn & HW & HH).
  exists chips. rewrite Hrun. split; [done|].
  intros i chip Hchip. apply Hchips in Hchip as [Hi' ->].
  destruct (grid_cell Wi Hi HWi HHi (Z.of_nat i) ltac:(lia)) as (Hpos & Hx & Hy).
  destruct (transformBox_normalized unrep
              (Z.of_nat i mod (Wi / Detector.W)) (Z.of_nat i / (Wi / Detector.W))
              b0 b1 b2 b3 rest H0 H1 H2 H3 ltac:(lia) ltac:(lia))
    as (r & Hr & Hbounds).
  exists r. eexists. split; [exact Hr|]. split; [reflexivity|].
  unfold Detector.W, Detector.H in *.
  cbn [Image.X Image.Y Image.Min Image.Max]. lia.
Qed.

Lemma normalized_detection_in_image_witness :
  exists chips,
    res (Detector.tile (Image.decoded 650 620)) = Done chips /\
    forall (i : nat) chip,
      chips !! i = Some chip ->
      exists r rc,
        Detector.transformBox amd64_unrep (Detector.X chip) (Detector.Y chip)
          [F32.zero; F32.div (F32.of_int 1) (F32.of_int 2);
           F32.of_int 1; F32.div (F32.of_int 1) (F32.of_int 4)] = Ok r /\
        Detector.Im chip = Some rc /\
        Image.X (Image.Min rc) <= Image.X (Image.Min r) <= Image.X (Image.Max rc) /\
        Image.X (Image.Min rc) <= Image.X (Image.Max r) <= Image.X (Image.Max rc) /\
        Image.Y (Image.Min rc) <= Image.Y (Image.Min r) <= Image.Y (Image.Max rc) /\
        Image.Y (Image.Min rc) <= Image.Y (Image.Max r) <= Image.Y (Image.Max rc) /\
        0 <= Image.X (Image.Min rc) /\ Image.X (Image.Max rc) <= 650 /\
        0 <= Image.Y (Image.Min rc) /\ Image.Y (Image.Max rc) <= 620.
Proof.
  apply (normalized_detection_in_image amd64_unrep 650 620
           F32.zero (F32.div (F32.of_int 1) (F32.of_int 2))
           (F32.of_int 1) (F32.div (F32.of_int 1) (F32.of_int 4)) []);
    try (repeat split; vm_compute; reflexivity); lia.
Defined.

(** ** When the usage text is printed *)

Lemma trace_all_bind {A B : Type} (P : event -> Prop) (m : Prog A) (k : A -> Prog B) :
  Forall P (trace m) -> (forall a, Forall P (trace (k a))) ->
  Forall P (trace (m ≫= k)).
Proof.
  intros Hm Hk. unfold mbind, Prog_bind. destruct (res m) as [a|c]; simpl; [|done].
  apply Forall_app. by split.
Qed.

Lemma trace_all_forRange {A St : Type} (P : event -> Prop)
    (body : nat -> A -> St -> Prog St) (l : list A) :
  (forall i a s, Forall P (trace (body i a s))) ->
  forall i s, Forall P (trace (forRange body i l s)).
Proof.
  intros Hbody. induction l as [|a l IH]; intros i s; [by constructor|].
  cbn [forRange]. apply trace_all_bind; [apply Hbody|]. intros s'. apply IH.
Qed.

Lemma no_usage_lift {A : Type} (o : outcome A) :
  Forall (fun e => e <> Usage) (trace (lift o)).
Proof. destruct o; simpl; by repeat constructor. Qed.

Lemma no_usage_orFatal {A : Type} (e : event) (r : option A) :
  e <> Usage -> Forall (fun e => e <> Usage) (trace (orFatal e r)).
Proof. intros He. destruct r; simpl; by repeat constructor. Qed.

Lemma no_usage_emit (e : event) :
  e <> Usage -> Forall (fun e => e <> Usage) (trace (emit e)).
Proof. intros He. simpl. by repeat constructor. Qed.

(** X13: the usage text is printed exactly when a flag is empty: with both
    flags given neither program ever prints it, whatever fails later. *)
Theorem usage_iff {Tensor : Type} (world : World Tensor) unrep modeldir imagefile :
  (Usage ∈ trace (Detector.main unrep world modeldir imagefile) <->
   modeldir = EmptyString \/ imagefile = EmptyString) /\
  (Usage ∈ trace (Classifier.main world modeldir imagefile) <->
   modeldir = EmptyString \/ imagefile = EmptyString).
Proof.
  assert (Hflags : String.eqb modeldir "" || String.eqb imagefile "" = true <->
                   modeldir = EmptyString \/ imagefile = EmptyString).
  { rewrite orb_true_iff, !String.eqb_eq. done. }
  unfold Detector.main, Classifier.main, modelFiles.
  destruct (String.eqb modeldir "" || String.eqb imagefile "") eqn:Hempty.
  - split; (split; [intros _; by apply Hflags|intros _; simpl; by left]).
  - assert (Hnot : ~ (modeldir = EmptyString \/ imagefile = EmptyString)).
    { intros H. apply Hflags in H. congruence. }
    cbv beta iota.
    match goal with
    | |- (Usage ∈ trace ?d <-> _) /\ (Usage ∈ trace ?c <-> _) =>
        assert (Hd : Forall (fun e => e <> Usage) (trace d));
        [|assert (Hc : Forall (fun e => e <> Usage) (trace c))]
    end.
    + do 5 (apply trace_all_bind; [by apply no_usage_orFatal|intros ?]).
      apply trace_all_bind.
      * unfold Detector.tile.
        repeat (apply trace_all_bind; [apply no_usage_lift|intros ?]).
        apply trace_all_forRange. intros k z chips.
        apply trace_all_bind; [apply no_usage_lift|intros ?].
        apply trace_all_bind; [by apply no_usage_emit|intros ?].
        apply no_usage_lift.
      * intros chips. apply trace_all_forRange. intros k chip u.
        unfold Detector.inferChip.
        apply trace_all_bind; [by apply no_usage_orFatal|intros ?].
        apply trace_all_bind; [by apply no_usage_orFatal|intros [[boxes scores] classes]].
        apply trace_all_bind; [apply no_usage_lift|intros ?].
        unfold Detector.printDetections.
        apply trace_all_bind; [by apply no_usage_orFatal|intros ?].
        apply trace_all_bind; [apply no_usage_lift|intros ?].
        apply trace_all_forRange. intros j d v. by apply no_usage_emit.
    + do 4 (apply trace_all_bind; [by apply no_usage_orFatal|intros ?]).
      apply trace_all_bind; [by apply no_usage_orFatal|intros [[boxes scores] classes]].
      unfold Classifier.printBestLabel.
      apply trace_all_bind; [apply no_usage_lift|intros ?].
      apply trace_all_bind; [by apply no_usage_orFatal|intros content].
      destruct (Bufio.ScanLines content) as [labels err].
      apply trace_all_bind;
        [destruct err; [by apply no_usage_emit|by constructor]|intros ?].
      apply trace_all_bind; [apply no_usage_lift|intros ?].
      apply trace_all_bind; [apply no_usage_lift|intros ?].
      by apply no_usage_emit.
    + rewrite Forall_forall in Hd, Hc.
      split; (split; [|done]); intros Hin; exfalso.
      * by apply (Hd Usage).
      * by apply (Hc Usage).
Qed.
